(** * The field-validation engine of the event planner

    A shallow embedding of the validation module of the client
    (the rule library, the combinator [join] and the aggregator
    [createValidator]) and the properties of it that the specification
    states.

    Conventions of the embedding.
    - A JavaScript value is [undefined], [null], a boolean, an
      integer-valued number (in the range where a number prints as its
      decimal numeral), a string, or an object.  Strings are sequences of
      code units below 256, so that [String.length] is the [length]
      property.  An object is seen through what the module can observe of
      it: its identity, its [length] property and its conversion to a
      string; it has no [toLowerCase] method.
    - A record (the object handed to a validator) is a plain object: a
      finite map of its own properties, on top of [Object.prototype].
      Reading a field the record does not own gives the member of
      [Object.prototype] of that name, and [undefined] when there is
      none.
    - A schema is the list of the own properties of the schema object, in
      the order of [Object.keys].
    - Evaluation may raise a [TypeError] and may read the wall clock:
      rules live in a small monad [Eval] that threads both.
    - [Date.parse] is left to the engine by the language for every string
      outside the standard format: it is a parameter of the development. *)

From stdpp Require Import gmap strings list fin_maps pretty.
From Stdlib Require Import ZArith Ascii Lia.

Open Scope Z_scope.
Open Scope string_scope.

(** ** Values *)

Inductive JSValue : Type :=
| VUndefined
| VNull
| VBool (b : bool)
| VNum (n : Z)
| VStr (s : string)
| VObject (identity : string) (own_length : option Z) (text : string).

#[global] Instance JSValue_eq_dec : EqDecision JSValue.
Proof. solve_decision. Defined.

(** [!!v] *)
Definition truthy (v : JSValue) : bool :=
  match v with
  | VUndefined | VNull => false
  | VBool b => b
  | VNum n => negb (n =? 0)%Z
  | VStr s => negb (String.eqb s "")
  | VObject _ _ _ => true
  end.

(** [a === b]: equality of primitives, identity of objects. *)
Definition strict_eq (a b : JSValue) : bool := bool_decide (a = b).

(** [String(v)], the conversion [RegExp.prototype.test], template
    literals and [Array.prototype.join] apply to their argument. *)
Definition ToString (v : JSValue) : string :=
  match v with
  | VUndefined => "undefined"
  | VNull => "null"
  | VBool true => "true"
  | VBool false => "false"
  | VNum n => pretty n
  | VStr s => s
  | VObject _ _ text => text
  end.

(** [values.join(sep)]: [undefined] and [null] elements print as the
    empty string. *)
Definition join_item (v : JSValue) : string :=
  match v with
  | VUndefined | VNull => ""
  | _ => ToString v
  end.

Fixpoint Array_join (sep : string) (values : list JSValue) : string :=
  match values with
  | [] => ""
  | [v] => join_item v
  | v :: rest => join_item v ++ sep ++ Array_join sep rest
  end.

(** [s.toLowerCase()] on code units below 256: the capital Latin letters
    and the capital letters of the Latin-1 supplement move up by 32. *)
Definition lower_unit (c : ascii) : ascii :=
  let n := nat_of_ascii c in
  if ((65 <=? n) && (n <=? 90))%nat
     || ((192 <=? n) && (n <=? 222) && negb (n =? 215))%nat
  then ascii_of_nat (n + 32) else c.

Fixpoint toLowerCase (s : string) : string :=
  match s with
  | EmptyString => EmptyString
  | String c rest => String (lower_unit c) (toLowerCase rest)
  end.

(** ** Regular expressions

    The patterns of the module are all anchored at both ends and carry no
    flag, so [test] asks whether the whole string is in the language of
    the pattern.  Matching is by derivatives; the one lookahead form the
    patterns use, [(?=r)rest] at the start, is the intersection of
    [r] followed by anything with [rest]. *)

Inductive RegExp : Type :=
| re_none
| re_eps
| re_class (p : ascii → bool)
| re_seq (r1 r2 : RegExp)
| re_alt (r1 r2 : RegExp)
| re_star (r : RegExp)
| re_and (r1 r2 : RegExp).

Fixpoint nullable (r : RegExp) : bool :=
  match r with
  | re_none => false
  | re_eps => true
  | re_class _ => false
  | re_seq r1 r2 => nullable r1 && nullable r2
  | re_alt r1 r2 => nullable r1 || nullable r2
  | re_star _ => true
  | re_and r1 r2 => nullable r1 && nullable r2
  end.

Definition mk_seq (r1 r2 : RegExp) : RegExp :=
  match r1, r2 with
  | re_none, _ => re_none
  | _, re_none => re_none
  | re_eps, _ => r2
  | _, _ => re_seq r1 r2
  end.

Definition mk_alt (r1 r2 : RegExp) : RegExp :=
  match r1, r2 with
  | re_none, _ => r2
  | _, re_none => r1
  | _, _ => re_alt r1 r2
  end.

Definition mk_and (r1 r2 : RegExp) : RegExp :=
  match r1, r2 with
  | re_none, _ => re_none
  | _, re_none => re_none
  | _, _ => re_and r1 r2
  end.

Fixpoint deriv (c : ascii) (r : RegExp) : RegExp :=
  match r with
  | re_none => re_none
  | re_eps => re_none
  | re_class p => if p c then re_eps else re_none
  | re_seq r1 r2 =>
      mk_alt (mk_seq (deriv c r1) r2)
             (if nullable r1 then deriv c r2 else re_none)
  | re_alt r1 r2 => mk_alt (deriv c r1) (deriv c r2)
  | re_star r1 => mk_seq (deriv c r1) (re_star r1)
  | re_and r1 r2 => mk_and (deriv c r1) (deriv c r2)
  end.

Fixpoint matches_whole (r : RegExp) (s : string) : bool :=
  match s with
  | EmptyString => nullable r
  | String c rest => matches_whole (deriv c r) rest
  end.

Module Pattern.

Definition code (c : ascii) : nat := nat_of_ascii c.

Definition chr (c : ascii) : RegExp := re_class (Ascii.eqb c).
Definition range (lo hi : ascii) : RegExp :=
  re_class (λ c, (code lo <=? code c) && (code c <=? code hi))%nat.
Definition one_of (cs : list ascii) : RegExp :=
  re_class (λ c, existsb (Ascii.eqb c) cs).
Definition none_of (p : ascii → bool) : RegExp :=
  re_class (λ c, negb (p c)).

(** [\d], [\w], [\s] and the line terminators, below 256. *)
Definition is_digit (c : ascii) : bool :=
  ((48 <=? code c) && (code c <=? 57))%nat.
Definition is_lower (c : ascii) : bool :=
  ((97 <=? code c) && (code c <=? 122))%nat.
Definition is_upper (c : ascii) : bool :=
  ((65 <=? code c) && (code c <=? 90))%nat.
Definition is_word (c : ascii) : bool :=
  is_digit c || is_lower c || is_upper c || (code c =? 95)%nat.
Definition is_space (c : ascii) : bool :=
  existsb (Nat.eqb (code c)) [9; 10; 11; 12; 13; 32; 160]%nat.
Definition is_line_end (c : ascii) : bool :=
  existsb (Nat.eqb (code c)) [10; 13]%nat.

Definition digit : RegExp := re_class is_digit.
Definition space : RegExp := re_class is_space.
(** [.] *)
Definition dot : RegExp := none_of is_line_end.
Definition anything : RegExp := re_star (re_class (λ _, true)).

Definition opt (r : RegExp) : RegExp := re_alt r re_eps.
Definition plus (r : RegExp) : RegExp := re_seq r (re_star r).
Fixpoint seqs (rs : list RegExp) : RegExp :=
  match rs with
  | [] => re_eps
  | [r] => r
  | r :: rest => re_seq r (seqs rest)
  end.
Fixpoint word (s : string) : RegExp :=
  match s with
  | EmptyString => re_eps
  | String c rest => re_seq (chr c) (word rest)
  end.
(** [r{1,3}] and [r{2,}] *)
Definition upto3 (r : RegExp) : RegExp := seqs [r; opt r; opt r].
Definition atleast2 (r : RegExp) : RegExp := seqs [r; r; re_star r].
(** [(?=look)rest] *)
Definition ahead (look rest : RegExp) : RegExp :=
  re_and (re_seq look anything) rest.

End Pattern.

Definition RegExp_test (RE : RegExp) (v : JSValue) : bool :=
  matches_whole RE (ToString v).

(** ** The patterns of the module *)

Section Patterns.
Import Pattern.
Local Open Scope char_scope.

Definition dquote : ascii := ascii_of_nat 34.

(** [isIntegerRE]: an optional plus sign, then either the digit 0 or a
    digit from 1 to 9 followed by any number of digits. *)
Definition isIntegerRE : RegExp :=
  re_seq (opt (chr "+"))
         (re_alt (chr "0") (re_seq (range "1" "9") (re_star digit))).

(** [numberRE]: one line, not empty, with a digit somewhere (a lookahead
    for a digit, then one or more characters). *)
Definition numberRE : RegExp :=
  ahead (re_seq (re_star dot) (range "0" "9")) (plus dot).

(** [twoWordsRE]: two or more name parts separated by single spaces; a
    name part is a lower-case letter followed by groups of an optional
    hyphen or apostrophe and one or more lower-case letters. *)
Definition name_part : RegExp :=
  re_seq (range "a" "z")
         (re_star (re_seq (opt (one_of ["-"; "'"])) (plus (range "a" "z")))).
Definition twoWordsRE : RegExp :=
  re_seq name_part (plus (re_seq (chr " ") name_part)).

(** [lowercaseRE]: as [numberRE], with a lower-case letter. *)
Definition lowercaseRE : RegExp :=
  ahead (re_seq (re_star dot) (range "a" "z")) (plus dot).

(** [uppercaseRE]: as [numberRE], with an upper-case letter. *)
Definition uppercaseRE : RegExp :=
  ahead (re_seq (re_star dot) (range "A" "Z")) (plus dot).

(** [specialCharRE]: as [numberRE], with an underscore or a character
    that is not a word character. *)
Definition specialCharRE : RegExp :=
  ahead (re_seq (re_star dot)
                (re_class (λ c, Ascii.eqb c "_" || negb (is_word c))))
        (plus dot).

(** The e-mail pattern: a dotted or a quoted local part, [@], and a
    bracketed dotted quad or a dotted host name. *)
Definition email_atom : RegExp :=
  none_of (λ c,
    existsb (Ascii.eqb c)
      ["<"; ">"; "("; ")"; "["; "]"; "\"; "."; ","; ";"; ":"; "@"; dquote]
    || is_space c).
Definition email_local : RegExp :=
  re_alt
    (re_seq (plus email_atom) (re_star (re_seq (chr ".") (plus email_atom))))
    (seqs [chr dquote; plus dot; chr dquote]).
Definition email_quad : RegExp :=
  let d := range "0" "9" in
  seqs [chr "["; upto3 d; chr "."; upto3 d; chr "."; upto3 d; chr ".";
        upto3 d; chr "]"].
Definition email_host : RegExp :=
  let label := re_class (λ c, is_lower c || is_upper c || Ascii.eqb c "-"
                              || is_digit c) in
  let letter := re_class (λ c, is_lower c || is_upper c) in
  re_seq (plus (re_seq (plus label) (chr "."))) (atleast2 letter).
Definition emailRE : RegExp :=
  seqs [email_local; chr "@"; re_alt email_quad email_host].

(** [dateRE]: month (an optional 0, comma or 1, then a digit), slash,
    day (an optional 0 to 2 then a digit, or 3 then 0 or 1), slash, year
    (199 and a digit, or a digit from 2 to 9 and three digits), a white
    space, hour (an optional 0 to 2 then a digit), colon, minutes (0 to 5
    then a digit), a space, and an optional am or pm. *)
Definition dateRE : RegExp :=
  seqs [opt (one_of ["0"; ","; "1"]); digit; chr "/";
        re_alt (re_seq (opt (range "0" "2")) digit)
               (re_seq (chr "3") (one_of ["0"; "1"]));
        chr "/";
        re_alt (re_seq (word "199") digit)
               (seqs [range "2" "9"; digit; digit; digit]);
        space; opt (range "0" "2"); range "0" "9"; chr ":";
        range "0" "5"; range "0" "9"; chr " ";
        opt (re_alt (word "am") (word "pm"))].

End Patterns.

(** ** Dates

    A [Date] object is its time value: milliseconds since the epoch, or
    nothing for an invalid date (the time value NaN). *)

Definition TimeClip (t : Z) : option Z :=
  if (Z.abs t <=? 8640000000000000)%Z then Some t else None.

(** [a < b] on two [Date] objects: both are converted to their time values
    and a comparison with NaN is false. *)
Definition date_lt (a b : option Z) : bool :=
  match a, b with
  | Some x, Some y => (x <? y)%Z
  | _, _ => false
  end.

(** A reference engine for [Date.parse]: it recognises the UTC forms of
    the standard date-time format, [YYYY-MM-DD], [YYYY-MM-DDTHH:mmZ],
    [YYYY-MM-DDTHH:mm:ssZ] and [YYYY-MM-DDTHH:mm:ss.sssZ], and nothing
    else.  It instantiates the engine wherever a closed example is
    computed. *)
Module IsoDate.

Definition digit_val (c : ascii) : option Z :=
  let n := nat_of_ascii c in
  if ((48 <=? n) && (n <=? 57))%nat then Some (Z.of_nat (n - 48)) else None.

Fixpoint number_of (s : string) (acc : Z) : option Z :=
  match s with
  | EmptyString => Some acc
  | String c rest =>
      match digit_val c with
      | Some d => number_of rest (10 * acc + d)%Z
      | None => None
      end
  end.

Definition field (s : string) (start len : nat) : option Z :=
  let t := String.substring start len s in
  if (String.length t =? len)%nat then number_of t 0 else None.

Definition sep_at (s : string) (i : nat) (c : ascii) : bool :=
  match String.get i s with
  | Some x => Ascii.eqb x c
  | None => false
  end.

Definition leap (y : Z) : bool :=
  ((y mod 4 =? 0) && (negb (y mod 100 =? 0) || (y mod 400 =? 0)))%Z.

Definition days_in_month (y m : Z) : Z :=
  (if m =? 2 then (if leap y then 29 else 28)
   else if (m =? 4) || (m =? 6) || (m =? 9) || (m =? 11) then 30
   else 31)%Z.

(** Days from 1970-01-01 to the given day of the proleptic Gregorian
    calendar. *)
Definition days_from_civil (y m d : Z) : Z :=
  (let y' := if m <=? 2 then y - 1 else y in
   let era := y' / 400 in
   let yoe := y' - era * 400 in
   let mp := (m + 9) mod 12 in
   let doy := (153 * mp + 2) / 5 + d - 1 in
   let doe := yoe * 365 + yoe / 4 - yoe / 100 + doy in
   era * 146097 + doe - 719468)%Z.

Definition day_part (s : string) : option Z :=
  match field s 0 4, field s 5 2, field s 8 2 with
  | Some y, Some m, Some d =>
      if (sep_at s 4 "-" && sep_at s 7 "-"
          && (1 <=? m)%Z && (m <=? 12)%Z
          && (1 <=? d)%Z && (d <=? days_in_month y m)%Z)%char
      then Some (days_from_civil y m d * 86400000)%Z
      else None
  | _, _, _ => None
  end.

(** Milliseconds into the day, for a string whose time part ends at
    [len]; [24:00:00.000] is the end of the day. *)
Definition time_part (s : string) (len : nat) : option Z :=
  let opt_field (present : bool) start n :=
    if present then field s start n else Some 0%Z in
  match field s 11 2, field s 14 2,
        opt_field (20 <=? len)%nat 17%nat 2%nat,
        opt_field (24 <=? len)%nat 20%nat 3%nat with
  | Some h, Some mi, Some sec, Some ms =>
      if (sep_at s 10 "T" && sep_at s 13 ":"
          && ((len <? 20)%nat || sep_at s 16 ":")
          && ((len <? 24)%nat || sep_at s 19 ".")
          && sep_at s (len - 1) "Z"
          && (mi <=? 59)%Z && (sec <=? 59)%Z
          && ((h <=? 23)%Z
              || ((h =? 24)%Z && (mi =? 0)%Z && (sec =? 0)%Z && (ms =? 0)%Z)))%char
      then Some (((h * 60 + mi) * 60 + sec) * 1000 + ms)%Z
      else None
  | _, _, _, _ => None
  end.

Definition parse (s : string) : option Z :=
  let len := String.length s in
  match day_part s with
  | Some day =>
      if (len =? 10)%nat then TimeClip day
      else if (len =? 17)%nat || (len =? 20)%nat || (len =? 24)%nat then
        match time_part s len with
        | Some t => TimeClip (day + t)
        | None => None
        end
      else None
  | None => None
  end.

End IsoDate.

(** ** Evaluation: exceptions and the wall clock *)

Inductive exn : Type := TypeError.

(** The world a call runs in: the readings the wall clock will give, and
    how many of them have been taken. *)
Record World : Type := { ticks : nat → Z; reads : nat }.

Inductive outcome (A : Type) : Type :=
| Return (a : A) (w : World)
| Throw (e : exn).
Arguments Return {A} a w.
Arguments Throw {A} e.

Definition Eval (A : Type) : Type := World → outcome A.

Definition ret {A} (a : A) : Eval A := λ w, Return a w.
Definition throw {A} (e : exn) : Eval A := λ _, Throw e.
Definition bind {A B} (m : Eval A) (k : A → Eval B) : Eval B :=
  λ w, match m w with
       | Return a w' => k a w'
       | Throw e => Throw e
       end.

Declare Scope eval_scope.
Delimit Scope eval_scope with eval.
Notation "x <- m ;; k" := (bind m (λ x, k))
  (at level 100, m at next level, right associativity) : eval_scope.
Local Open Scope eval_scope.

(** [new Date()] *)
Definition tick (w : World) : World :=
  {| ticks := ticks w; reads := S (reads w) |}.
Definition now (w : World) : Z := ticks w (reads w).
Definition Date_now : Eval (option Z) := λ w, Return (Some (now w)) (tick w).

(** [rules.map(f)], left to right. *)
Fixpoint Array_map {A B} (f : A → Eval B) (l : list A) : Eval (list B) :=
  match l with
  | [] => ret []
  | x :: rest => y <- f x ;; ys <- Array_map f rest ;; ret (y :: ys)
  end.

(** [keys.forEach(body)], the body updating the object [errors]. *)
Fixpoint forEach {A S} (body : A → S → Eval S) (l : list A) (s : S) : Eval S :=
  match l with
  | [] => ret s
  | x :: rest => s' <- body x s ;; forEach body rest s'
  end.

(** ** Records and rules *)

Abbreviation record := (gmap string JSValue).
Abbreviation ErrorMap := (gmap string JSValue).

(** The members of [Object.prototype], which every plain object
    inherits: the built-in functions, with their number of parameters as
    [length], and the accessor [__proto__], which reads as
    [Object.prototype] itself. *)
Definition native_function (name : string) (arity : Z) : JSValue :=
  VObject name (Some arity) ("function " ++ name ++ "() { [native code] }").

Definition Object_prototype : gmap string JSValue :=
  list_to_map
    [ ("constructor", native_function "Object" 1);
      ("__defineGetter__", native_function "__defineGetter__" 2);
      ("__defineSetter__", native_function "__defineSetter__" 2);
      ("hasOwnProperty", native_function "hasOwnProperty" 1);
      ("__lookupGetter__", native_function "__lookupGetter__" 1);
      ("__lookupSetter__", native_function "__lookupSetter__" 1);
      ("isPrototypeOf", native_function "isPrototypeOf" 1);
      ("propertyIsEnumerable", native_function "propertyIsEnumerable" 1);
      ("toString", native_function "toString" 0);
      ("valueOf", native_function "valueOf" 0);
      ("toLocaleString", native_function "toLocaleString" 0);
      ("__proto__", VObject "Object.prototype" None "[object Object]") ].

(** [data[key]]: the own property, or else the inherited one. *)
Definition get (data : record) (key : string) : JSValue :=
  match data !! key with
  | Some v => v
  | None => default VUndefined (Object_prototype !! key)
  end.

(** [errors[key] = error]: a new own property, but for the key
    [__proto__], which is the inherited setter: it changes no own
    property. *)
Definition set (errors : ErrorMap) (key : string) (error : JSValue) : ErrorMap :=
  if String.eqb key "__proto__" then errors else <[key := error]> errors.

Definition Rule : Type := JSValue → record → Eval JSValue.

(** A schema entry is one rule or an array of rules; [[].concat(entry)]
    is the array of its rules. *)
Inductive entry (R : Type) : Type :=
| Single (rule : R)
| Several (rules : list R).
Arguments Single {R} rule.
Arguments Several {R} rules.

Definition concat_entry {R} (e : entry R) : list R :=
  match e with
  | Single rule => [rule]
  | Several rules => rules
  end.

Definition schema (R : Type) : Type := list (string * entry R).

Definition Object_keys {R} (validationRules : schema R) : list string :=
  validationRules.*1.

(** [validationRules[key]] *)
Fixpoint prop {R} (validationRules : schema R) (key : string) : option (entry R) :=
  match validationRules with
  | [] => None
  | (k, e) :: rest => if String.eqb k key then Some e else prop rest key
  end.

(** ** The module *)

Definition join (rules : list Rule) : Rule :=
  λ value data,
    results <- Array_map (λ rule, rule value data) rules ;;
    ret (default VUndefined (filter (λ error, truthy error = true) results !! 0%nat)).

Definition noValue (value : JSValue) : bool :=
  strict_eq value VUndefined || strict_eq value VNull || strict_eq value (VStr "").

Definition validateWithRE (RE : RegExp) (message : string) (value : JSValue) : JSValue :=
  if negb (RegExp_test RE value) then VStr message else VUndefined.

(** [value.length]: reading a property of [undefined] or [null] raises;
    booleans and numbers have no such property; an object has the one
    it has. *)
Definition length_of (value : JSValue) : Eval (option Z) :=
  match value with
  | VUndefined | VNull => throw TypeError
  | VStr s => ret (Some (Z.of_nat (String.length s)))
  | VBool _ | VNum _ => ret None
  | VObject _ own_length _ => ret own_length
  end.

(** [a < b] and [a > b] for a possibly undefined length [a]: [undefined]
    converts to NaN, and the comparison is false. *)
Definition num_lt (a : option Z) (b : Z) : bool :=
  match a with Some n => (n <? b)%Z | None => false end.
Definition num_gt (a : option Z) (b : Z) : bool :=
  match a with Some n => (b <? n)%Z | None => false end.

Definition minLength (minimum : Z) : Rule :=
  λ value _,
    if negb (noValue value) then
      len <- length_of value ;;
      ret (if num_lt len minimum
           then VStr ("Value must contain at least " ++ pretty minimum ++ " characters")
           else VUndefined)
    else ret VUndefined.

Definition maxLength (maximum : Z) : Rule :=
  λ value _,
    if negb (noValue value) then
      len <- length_of value ;;
      ret (if num_gt len maximum
           then VStr ("Value must be no more than " ++ pretty maximum
                      ++ " characters in length")
           else VUndefined)
    else ret VUndefined.

Definition valueRequired : Rule :=
  λ value _, ret (if noValue value then VStr "Value Required" else VUndefined).

(** [value && rest] *)
Definition and_then (value rest : JSValue) : JSValue :=
  if truthy value then rest else value.

Definition containsSpecialChar : Rule :=
  λ value _,
    ret (and_then value
           (validateWithRE specialCharRE "Must contain 1 special character." value)).

Definition isInteger : Rule :=
  λ value _,
    ret (and_then value (validateWithRE isIntegerRE "Must be an integer value." value)).

Definition containsNumber : Rule :=
  λ value _,
    ret (and_then value
           (validateWithRE numberRE "Must Contain at least one number" value)).

Definition containsLowercase : Rule :=
  λ value _,
    ret (and_then value
           (validateWithRE lowercaseRE "Must contain at least one lowercase letter." value)).

Definition containsUppercase : Rule :=
  λ value _,
    ret (and_then value
           (validateWithRE uppercaseRE "Must contain at least one uppercase letter" value)).

(** [value.toLowerCase()]: only strings have the method. *)
Definition call_toLowerCase (value : JSValue) : Eval JSValue :=
  match value with
  | VStr s => ret (VStr (toLowerCase s))
  | _ => throw TypeError
  end.

Definition containsTwoWords : Rule :=
  λ value _,
    lowercaseValue <- (if truthy value then call_toLowerCase value else ret (VStr "")) ;;
    ret (and_then value
           (validateWithRE twoWordsRE "Must contain two words, i.e. full name."
              lowercaseValue)).

Definition isEmail : Rule :=
  λ value _,
    ret (and_then value (validateWithRE emailRE "Must be a valid email address." value)).

Definition isValidDate : Rule :=
  λ value _,
    ret (and_then value (validateWithRE dateRE "Must be a valid date time." value)).

(** [values.filter(item => item === value).length > 0 ? message : null] *)
Definition validateOneOf (values : list JSValue) (message : string) : Rule :=
  λ value _,
    let isValid :=
      (0 <? length (filter (λ item, strict_eq item value = true) values))%nat in
    ret (if isValid then VStr message else VNull).

Definition matches (matchVal : JSValue) : Rule :=
  λ currentVal _,
    ret (if strict_eq matchVal currentVal then VNull else VStr "Values must match").

Definition oneOf (values : list JSValue) : Rule :=
  λ value data,
    validateOneOf values ("Value must be one of: " ++ Array_join ", " values) value data.

Section Engine.

(** [Date.parse] of the engine the module runs on. *)
Variable Date_parse : string → option Z.

(** [new Date(value)]: an object is converted to a primitive, its
    string, first. *)
Definition new_Date (value : JSValue) : option Z :=
  match value with
  | VUndefined => None
  | VNull => Some 0%Z
  | VBool b => Some (if b then 1 else 0)%Z
  | VNum n => TimeClip n
  | VStr s => Date_parse s
  | VObject _ _ text => Date_parse text
  end.

Definition isInFuture : Rule :=
  λ value _,
    currentDate <- Date_now ;;
    let setDate := new_Date value in
    ret (if date_lt setDate currentDate
         then VStr "Please choose a date in the future"
         else VNull).

Definition noLaterThan (field : string) : Rule :=
  λ value data,
    let startDate := new_Date (get data field) in
    let endDate := new_Date value in
    ret (if date_lt endDate startDate
         then VStr "The end date must come after the start date"
         else VNull).

End Engine.

(** The callback that [createValidator] hands to [forEach]: it checks one
    field and records its error, if any, in [errors]. *)
Definition check_key (validationRules : schema Rule) (data : record)
    (key : string) (errors : ErrorMap) : Eval ErrorMap :=
  match prop validationRules key with
  | Some e =>
      let rule := join (concat_entry e) in
      error <- rule (get data key) data ;;
      ret (if truthy error then set errors key error else errors)
  | None => throw TypeError
  end.

Definition createValidator (validationRules : schema Rule) (data : record)
  : Eval ErrorMap :=
  forEach (check_key validationRules data) (Object_keys validationRules) ∅.

(** ** Schemas written with the library

    The rules a form author can write down: the exported predicates and
    the rules the exported factories build. *)

Inductive LibRule : Type :=
| MinLength (minimum : Z)
| MaxLength (maximum : Z)
| ValueRequired
| ContainsSpecialChar
| IsInteger
| ContainsNumber
| ContainsLowercase
| ContainsUppercase
| ContainsTwoWords
| IsEmail
| IsValidDate
| IsInFuture
| ValidateOneOf (values : list JSValue) (message : string)
| Matches (matchVal : JSValue)
| OneOf (values : list JSValue)
| NoLaterThan (field : string).

Definition rule_of (Date_parse : string → option Z) (r : LibRule) : Rule :=
  match r with
  | MinLength minimum => minLength minimum
  | MaxLength maximum => maxLength maximum
  | ValueRequired => valueRequired
  | ContainsSpecialChar => containsSpecialChar
  | IsInteger => isInteger
  | ContainsNumber => containsNumber
  | ContainsLowercase => containsLowercase
  | ContainsUppercase => containsUppercase
  | ContainsTwoWords => containsTwoWords
  | IsEmail => isEmail
  | IsValidDate => isValidDate
  | IsInFuture => isInFuture Date_parse
  | ValidateOneOf values message => validateOneOf values message
  | Matches matchVal => matches matchVal
  | OneOf values => oneOf values
  | NoLaterThan field => noLaterThan Date_parse field
  end.

Definition entry_map {A B} (f : A → B) (e : entry A) : entry B :=
  match e with
  | Single rule => Single (f rule)
  | Several rules => Several (map f rules)
  end.

Definition schema_of (Date_parse : string → option Z) (L : schema LibRule)
  : schema Rule :=
  map (λ ke, (ke.1, entry_map (rule_of Date_parse) ke.2)) L.

(** The rules of a field, and all the rules of a schema. *)
Definition rules_at {R} (validationRules : schema R) (key : string) : list R :=
  match prop validationRules key with
  | Some e => concat_entry e
  | None => []
  end.

Definition all_rules {R} (validationRules : schema R) : list R :=
  concat (map (λ ke, concat_entry ke.2) validationRules).

(** The classes of rules the specification speaks of. *)
Definition is_valueRequired (r : LibRule) : bool :=
  match r with ValueRequired => true | _ => false end.


(** Rules that compare the value with a configured one: equality and
    membership. *)
Definition is_comparison (r : LibRule) : bool :=
  match r with
  | Matches _ | OneOf _ | ValidateOneOf _ _ => true
  | _ => false
  end.

(** Rules that read the wall clock. *)
Definition is_time_dependent (r : LibRule) : bool :=
  match r with IsInFuture => true | _ => false end.

(** Is a required-value rule among the rules of the field? *)
Definition requires_value (L : schema LibRule) (key : string) : bool :=
  existsb is_valueRequired (rules_at L key).

(** Values a form hands over: strings, or nothing. *)
Definition string_or_absent (v : JSValue) : bool :=
  match v with
  | VUndefined | VNull | VStr _ => true
  | VBool _ | VNum _ | VObject _ _ _ => false
  end.

(** What a call gives back, the clock left aside. *)
Definition result_of {A} (o : outcome A) : exn + A :=
  match o with
  | Return a _ => inr a
  | Throw e => inl e
  end.

(** Two worlds in which the clock gives the same readings from now on. *)
Definition same_clock (w1 w2 : World) : Prop :=
  ∀ i, ticks w1 (reads w1 + i)%nat = ticks w2 (reads w2 + i)%nat.

(** The results of running rules one after the other, in list order. *)
Inductive runs_all (value : JSValue) (data : record)
  : list Rule → World → list JSValue → World → Prop :=
| runs_nil w : runs_all value data [] w [] w
| runs_cons rule rules w x w1 xs w2 :
    rule value data w = Return x w1 →
    runs_all value data rules w1 xs w2 →
    runs_all value data (rule :: rules) w (x :: xs) w2.

(** A world whose clock starts at 2023-11-14T22:13:20.000Z and advances
    by a millisecond at each reading. *)
Definition sample_world : World :=
  {| ticks := λ n, (1700000000000 + Z.of_nat n)%Z; reads := 0 |}.

(** A schema none of whose fields bears the name of a member of
    [Object.prototype]. *)
Definition plain_keys {R} (validationRules : schema R) : bool :=
  forallb (λ key, bool_decide (Object_prototype !! key = None))
          (Object_keys validationRules).

(** A schema none of whose rules compares the value with a configured
    one, and a schema none of whose rules reads the clock. *)
Definition no_comparison (L : schema LibRule) : bool :=
  forallb (λ r, negb (is_comparison r)) (all_rules L).

Definition time_free (L : schema LibRule) : bool :=
  forallb (λ r, negb (is_time_dependent r)) (all_rules L).

(** Two outcomes agree up to a relation on the worlds they leave. *)
Definition agree (R : World → World → Prop) {A} (o1 o2 : outcome A) : Prop :=
  match o1, o2 with
  | Return a w1, Return b w2 => a = b ∧ R w1 w2
  | Throw e1, Throw e2 => e1 = e2
  | _, _ => False
  end.

(** A computation that gives agreeing outcomes in related worlds. *)
Definition respects (R : World → World → Prop) {A} (m : Eval A) : Prop :=
  ∀ w1 w2, R w1 w2 → agree R (m w1) (m w2).

(** ** Sample forms

    The inputs at which the properties below are exercised. *)

Definition event_form : schema LibRule :=
  [ ("name", Several [ValueRequired; MinLength 3]);
    ("host", Several [ValueRequired; ContainsTwoWords]);
    ("startDate", Several [ValueRequired; IsInFuture]);
    ("endDate", Single (NoLaterThan "startDate"));
    ("guests", Single IsInteger) ].

Definition signup_form : schema LibRule :=
  [ ("email", Several [ValueRequired; IsEmail]);
    ("password", Several [ValueRequired; MinLength 8; ContainsNumber]);
    ("passwordConfirmation", Single (Matches (VStr "hunter42"))) ].

(** A draft of an event: the name is too short, the host has one name
    only, and the event ends before it starts. *)
Definition event_draft : record :=
  <[ "name" := VStr "BB" ]>
    (<[ "host" := VStr "Ada" ]>
       (<[ "startDate" := VStr "2030-05-01T18:00Z" ]>
          (<[ "endDate" := VStr "2030-05-01T17:00Z" ]> ∅))).

(** The same draft, its fields entered in another order. *)
Definition event_draft' : record :=
  <[ "endDate" := VStr "2030-05-01T17:00Z" ]>
    (<[ "startDate" := VStr "2030-05-01T18:00Z" ]>
       (<[ "host" := VStr "Ada" ]>
          (<[ "name" := VStr "BB" ]> ∅))).

Definition event_draft_errors : ErrorMap :=
  <[ "name" := VStr "Value must contain at least 3 characters" ]>
    (<[ "host" := VStr "Must contain two words, i.e. full name." ]>
       (<[ "endDate" := VStr "The end date must come after the start date" ]> ∅)).

(** A world whose clock is stuck at the epoch. *)
Definition epoch_world : World := {| ticks := λ _, 0%Z; reads := 0 |}.

(** A world that has read its clock five times already and will read the
    same instants as [sample_world] from now on. *)
Definition later_world : World :=
  {| ticks := λ n, (1700000000000 + Z.of_nat n - 5)%Z; reads := 5 |}.

(** ** The language of a pattern

    What it means for a string to match a pattern, stated without
    reference to the matcher; the matcher is proved to decide it. *)

Inductive lang : RegExp → string → Prop :=
| lang_eps : lang re_eps ""
| lang_class p c : p c = true → lang (re_class p) (String c "")
| lang_seq r1 r2 s1 s2 :
    lang r1 s1 → lang r2 s2 → lang (re_seq r1 r2) (s1 ++ s2)
| lang_alt_l r1 r2 s : lang r1 s → lang (re_alt r1 r2) s
| lang_alt_r r1 r2 s : lang r2 s → lang (re_alt r1 r2) s
| lang_star_nil r : lang (re_star r) ""
| lang_star_app r s1 s2 :
    lang r s1 → lang (re_star r) s2 → lang (re_star r) (s1 ++ s2)
| lang_and r1 r2 s : lang r1 s → lang r2 s → lang (re_and r1 r2) s.

Fixpoint all_chars (p : ascii → bool) (s : string) : bool :=
  match s with
  | EmptyString => true
  | String c rest => p c && all_chars p rest
  end.

Fixpoint any_char (p : ascii → bool) (s : string) : bool :=
  match s with
  | EmptyString => false
  | String c rest => p c || any_char p rest
  end.

(** A string without line terminator. *)
Definition single_line (s : string) : bool :=
  all_chars (λ c, negb (Pattern.is_line_end c)) s.

(** An underscore, or a character that is no word character. *)
Definition is_special (c : ascii) : bool :=
  Ascii.eqb c "_" || negb (Pattern.is_word c).

(** Two lines: a digit on the first, a capital on the second. *)
Definition two_lines : string :=
  "room 1" ++ String (ascii_of_nat 10) "Floor".

(** ** The profile reducer

    The state container of the profile page.  The state is a plain
    object, a finite map of its own properties; an action is an object
    read through the properties the reducer looks at, an absent one being
    [undefined]; [action.inputs] is an object with own properties, or is
    absent.  The action types come from a module of constants that is not
    part of the sources: they are parameters. *)

Module Profile.

Record ActionTypes : Type := {
  PROFILE_EDIT_AVATAR : string;
  PROFILE_EDIT_BIO : string;
  PROFILE_EDIT_EMAIL : string;
  PROFILE_EDIT_EMPLOYER : string;
  PROFILE_SUBMISSION_INITIATION : string;
  PROFILE_SUBMISSION_SUCCESS : string;
  PROFILE_SUBMISSION_FAILURE : string;
  PROFILE_CLEAR_ERROR : string;
  PROFILE_CANCEL_EDITING : string;
  PROFILE_START_EDITING : string;
  PROFILE_SET_DEFAULT_INPUTS : string
}.

Record Action : Type := {
  type : JSValue;
  avatar : JSValue;
  bio : JSValue;
  email : JSValue;
  employer : JSValue;
  error : JSValue;
  inputs : option record
}.

Definition initialState : record :=
  list_to_map
    [ ("isEditing", VBool false);
      ("bioInput", VNull);
      ("error", VNull);
      ("isLoading", VBool false);
      ("avatarInput", VNull);
      ("emailInput", VNull);
      ("employerInput", VNull) ].

(** [update(state, {key: {$set: value}, ...})] of the immutability helper:
    a copy of the state with the listed properties replaced, in the order
    of the listing. *)
Definition update (state : record) (spec : list (string * JSValue)) : record :=
  foldl (λ next kv, <[kv.1 := kv.2]> next) state spec.

(** The cases of the [switch], in the order of the source. *)
Inductive Case : Type :=
| EditAvatar
| EditBio
| EditEmail
| EditEmployer
| SubmissionInitiation
| SubmissionSuccess
| SubmissionFailure
| ClearError
| CancelEditing
| StartEditing
| SetDefaultInputs
| Default.

(** The constant each case is labelled with. *)
Definition label (types : ActionTypes) (c : Case) : option string :=
  match c with
  | EditAvatar => Some (PROFILE_EDIT_AVATAR types)
  | EditBio => Some (PROFILE_EDIT_BIO types)
  | EditEmail => Some (PROFILE_EDIT_EMAIL types)
  | EditEmployer => Some (PROFILE_EDIT_EMPLOYER types)
  | SubmissionInitiation => Some (PROFILE_SUBMISSION_INITIATION types)
  | SubmissionSuccess => Some (PROFILE_SUBMISSION_SUCCESS types)
  | SubmissionFailure => Some (PROFILE_SUBMISSION_FAILURE types)
  | ClearError => Some (PROFILE_CLEAR_ERROR types)
  | CancelEditing => Some (PROFILE_CANCEL_EDITING types)
  | StartEditing => Some (PROFILE_START_EDITING types)
  | SetDefaultInputs => Some (PROFILE_SET_DEFAULT_INPUTS types)
  | Default => None
  end.

Definition cases : list Case :=
  [ EditAvatar; EditBio; EditEmail; EditEmployer; SubmissionInitiation;
    SubmissionSuccess; SubmissionFailure; ClearError; CancelEditing;
    StartEditing; SetDefaultInputs ].

(** [switch (action.type)]: the first case whose label is strictly equal
    to the type, and the default case when there is none. *)
Fixpoint first_case (types : ActionTypes) (t : JSValue) (cs : list Case) : Case :=
  match cs with
  | [] => Default
  | c :: rest =>
      match label types c with
      | Some l => if strict_eq t (VStr l) then c else first_case types t rest
      | None => first_case types t rest
      end
  end.

Definition select (types : ActionTypes) (t : JSValue) : Case :=
  first_case types t cases.

(** The body of each case. *)
Definition run_case (c : Case) (state : record) (action : Action)
  : exn + record :=
  match c with
  | EditAvatar => inr (update state [("avatarInput", avatar action)])
  | EditBio => inr (update state [("bioInput", bio action)])
  | EditEmail => inr (update state [("emailInput", email action)])
  | EditEmployer => inr (update state [("employerInput", employer action)])
  | SubmissionInitiation => inr (update state [("isLoading", VBool true)])
  | SubmissionSuccess =>
      inr (update state
             [ ("isEditing", VBool false); ("bioInput", VNull);
               ("employerInput", VNull); ("emailInput", VNull);
               ("avatarInput", VNull); ("isLoading", VBool false) ])
  | SubmissionFailure =>
      inr (update state
             [ ("isEditing", VBool false); ("bioInput", VNull);
               ("avatarInput", VNull); ("employerInput", VNull);
               ("emailInput", VNull); ("isLoading", VBool false);
               ("error", error action) ])
  | ClearError => inr (update state [("error", VNull)])
  | CancelEditing =>
      inr (update state
             [ ("isEditing", VBool false); ("bioInput", VNull);
               ("avatarInput", VNull); ("employerInput", VNull);
               ("emailInput", VNull) ])
  | StartEditing => inr (update state [("isEditing", VBool true)])
  | SetDefaultInputs =>
      match inputs action with
      | Some props =>
          inr (update state
                 [ ("bioInput", get props "bio");
                   ("avatarInput", get props "avatar");
                   ("employerInput", get props "employer");
                   ("emailInput", get props "email") ])
      | None => inl TypeError
      end
  | Default => inr state
  end.

(** [profileReducer(state, action)]; a state that is [undefined] stands
    for the initial one. *)
Definition profileReducer (types : ActionTypes) (state : option record)
    (action : Action) : exn + record :=
  run_case (select types (type action)) (default initialState state) action.

(** What each case hands to [update]; nothing when the case raises. *)
Definition writes (c : Case) (action : Action)
  : option (list (string * JSValue)) :=
  match c with
  | EditAvatar => Some [("avatarInput", avatar action)]
  | EditBio => Some [("bioInput", bio action)]
  | EditEmail => Some [("emailInput", email action)]
  | EditEmployer => Some [("employerInput", employer action)]
  | SubmissionInitiation => Some [("isLoading", VBool true)]
  | SubmissionSuccess =>
      Some [ ("isEditing", VBool false); ("bioInput", VNull);
             ("employerInput", VNull); ("emailInput", VNull);
             ("avatarInput", VNull); ("isLoading", VBool false) ]
  | SubmissionFailure =>
      Some [ ("isEditing", VBool false); ("bioInput", VNull);
             ("avatarInput", VNull); ("employerInput", VNull);
             ("emailInput", VNull); ("isLoading", VBool false);
             ("error", error action) ]
  | ClearError => Some [("error", VNull)]
  | CancelEditing =>
      Some [ ("isEditing", VBool false); ("bioInput", VNull);
             ("avatarInput", VNull); ("employerInput", VNull);
             ("emailInput", VNull) ]
  | StartEditing => Some [("isEditing", VBool true)]
  | SetDefaultInputs =>
      match inputs action with
      | Some props =>
          Some [ ("bioInput", get props "bio");
                 ("avatarInput", get props "avatar");
                 ("employerInput", get props "employer");
                 ("emailInput", get props "email") ]
      | None => None
      end
  | Default => Some []
  end.

(** The properties the reducer manages. *)
Definition managed : list string :=
  [ "isEditing"; "bioInput"; "error"; "isLoading"; "avatarInput";
    "emailInput"; "employerInput" ].

(** The four input properties. *)
Definition input_keys : list string :=
  [ "bioInput"; "avatarInput"; "employerInput"; "emailInput" ].

(** A state with the managed properties and no other, whose two flags
    are booleans. *)
Definition well_formed (state : record) : Prop :=
  dom state = list_to_set managed
  ∧ (∃ b, state !! "isEditing" = Some (VBool b))
  ∧ (∃ b, state !! "isLoading" = Some (VBool b)).

(** The cases that write nothing but the editing flag and the inputs. *)
Definition is_editing_case (c : Case) : bool :=
  match c with
  | EditAvatar | EditBio | EditEmail | EditEmployer | CancelEditing
  | StartEditing | SetDefaultInputs => true
  | _ => false
  end.

(** Sample constants, actions and states. *)
Definition sample_types : ActionTypes :=
  {| PROFILE_EDIT_AVATAR := "PROFILE_EDIT_AVATAR";
     PROFILE_EDIT_BIO := "PROFILE_EDIT_BIO";
     PROFILE_EDIT_EMAIL := "PROFILE_EDIT_EMAIL";
     PROFILE_EDIT_EMPLOYER := "PROFILE_EDIT_EMPLOYER";
     PROFILE_SUBMISSION_INITIATION := "PROFILE_SUBMISSION_INITIATION";
     PROFILE_SUBMISSION_SUCCESS := "PROFILE_SUBMISSION_SUCCESS";
     PROFILE_SUBMISSION_FAILURE := "PROFILE_SUBMISSION_FAILURE";
     PROFILE_CLEAR_ERROR := "PROFILE_CLEAR_ERROR";
     PROFILE_CANCEL_EDITING := "PROFILE_CANCEL_EDITING";
     PROFILE_START_EDITING := "PROFILE_START_EDITING";
     PROFILE_SET_DEFAULT_INPUTS := "PROFILE_SET_DEFAULT_INPUTS" |}.

Definition plain_action (t : string) : Action :=
  {| type := VStr t; avatar := VUndefined; bio := VUndefined;
     email := VUndefined; employer := VUndefined; error := VUndefined;
     inputs := None |}.

Definition edit_bio (text : string) : Action :=
  {| type := VStr "PROFILE_EDIT_BIO"; avatar := VUndefined; bio := VStr text;
     email := VUndefined; employer := VUndefined; error := VUndefined;
     inputs := None |}.

Definition submission_failure (message : string) : Action :=
  {| type := VStr "PROFILE_SUBMISSION_FAILURE"; avatar := VUndefined;
     bio := VUndefined; email := VUndefined; employer := VUndefined;
     error := VStr message; inputs := None |}.

Definition set_default_inputs (props : option record) : Action :=
  {| type := VStr "PROFILE_SET_DEFAULT_INPUTS"; avatar := VUndefined;
     bio := VUndefined; email := VUndefined; employer := VUndefined;
     error := VUndefined; inputs := props |}.

(** A state in the middle of an edit, while a submission is under way. *)
Definition editing_state : record :=
  <[ "isEditing" := VBool true ]>
    (<[ "bioInput" := VStr "Hello" ]>
       (<[ "isLoading" := VBool true ]> initialState)).

End Profile.

(** ** More sample forms *)

(** The event form with every entry written as an array. *)
Definition event_form_arrays : schema LibRule :=
  [ ("name", Several [ValueRequired; MinLength 3]);
    ("host", Several [ValueRequired; ContainsTwoWords]);
    ("startDate", Several [ValueRequired; IsInFuture]);
    ("endDate", Several [NoLaterThan "startDate"]);
    ("guests", Several [IsInteger]) ].

(** A form with a field called [__proto__], and a record that owns an
    empty property of that name, as a parsed JSON text can. *)
Definition proto_form : schema Rule :=
  [ ("__proto__", Single valueRequired); ("name", Single valueRequired) ].

Definition proto_record : record := {[ "__proto__" := VStr "" ]}.

(** * Properties *)

(** ** The module at a few inputs *)

Example isEmail_accepts :
  isEmail (VStr "a@b.com") ∅ sample_world = Return VUndefined sample_world.
Proof. reflexivity. Qed.

Example isEmail_rejects :
  isEmail (VStr "not-an-email") ∅ sample_world
  = Return (VStr "Must be a valid email address.") sample_world.
Proof. reflexivity. Qed.

Example containsTwoWords_accepts :
  containsTwoWords (VStr "John Smith") ∅ sample_world
  = Return VUndefined sample_world.
Proof. reflexivity. Qed.

Example containsTwoWords_rejects :
  containsTwoWords (VStr "John") ∅ sample_world
  = Return (VStr "Must contain two words, i.e. full name.") sample_world.
Proof. reflexivity. Qed.

(** A boolean has no [toLowerCase]: the call raises. *)
Example containsTwoWords_raises :
  containsTwoWords (VBool true) ∅ sample_world = Throw TypeError.
Proof. reflexivity. Qed.

Example isValidDate_accepts :
  isValidDate (VStr "01/01/2020 10:00 am") ∅ sample_world
  = Return VUndefined sample_world.
Proof. reflexivity. Qed.

Example minLength_rejects :
  minLength 3 (VStr "ab") ∅ sample_world
  = Return (VStr "Value must contain at least 3 characters") sample_world.
Proof. reflexivity. Qed.

(** The empty record inherits its [constructor]. *)
Example get_inherited :
  get ∅ "constructor" = native_function "Object" 1
  ∧ get ∅ "name" = VUndefined.
Proof. split; reflexivity. Qed.

Example noLaterThan_rejects :
  noLaterThan IsoDate.parse "startDate" (VStr "2019-01-01T10:00Z")
    {[ "startDate" := VStr "2020-01-01T10:00Z" ]} sample_world
  = Return (VStr "The end date must come after the start date") sample_world.
Proof. reflexivity. Qed.

Example noLaterThan_accepts :
  noLaterThan IsoDate.parse "startDate" (VStr "2020-01-01T10:00Z")
    {[ "startDate" := VStr "2019-01-01T10:00Z" ]} sample_world
  = Return VNull sample_world.
Proof. reflexivity. Qed.

(** ** The evaluation monad *)

Lemma bind_Return {A B} (m : Eval A) (k : A → Eval B) w a w1 :
  m w = Return a w1 → bind m k w = k a w1.
Proof. intros H. unfold bind. by rewrite H. Qed.

Lemma bind_inv {A B} (m : Eval A) (k : A → Eval B) w b w2 :
  bind m k w = Return b w2 →
  ∃ a w1, m w = Return a w1 ∧ k a w1 = Return b w2.
Proof.
  unfold bind. destruct (m w) as [a w1|e] eqn:E; [|done].
  intros H. by exists a, w1.
Qed.

Lemma ret_inv {A} (a b : A) w w' : ret a w = Return b w' → a = b ∧ w = w'.
Proof. unfold ret. by intros [= -> ->]. Qed.

(** ** Truthiness *)



(** ** [join] *)

Lemma Array_map_runs value data rules w results w' :
  Array_map (λ rule : Rule, rule value data) rules w = Return results w' ↔
  runs_all value data rules w results w'.
Proof.
  split.
  - revert w results. induction rules as [|rule rules IH]; intros w results H.
    + apply ret_inv in H as [<- <-]. constructor.
    + simpl in H. apply bind_inv in H as (x & w1 & Hx & H).
      apply bind_inv in H as (xs & w2 & Hxs & H).
      apply ret_inv in H as [<- <-].
      econstructor; eauto.
  - induction 1 as [|rule rules w x w1 xs w2 Hx _ IH]; [done|].
    simpl. rewrite (bind_Return _ _ _ _ _ Hx), (bind_Return _ _ _ _ _ IH). done.
Qed.

(** The first element of the truthy ones is the first truthy element. *)
Lemma first_truthy (results : list JSValue) :
  match filter (λ error, truthy error = true) results !! 0%nat with
  | Some e =>
      ∃ i, results !! i = Some e ∧ truthy e = true
           ∧ ∀ j x, (j < i)%nat → results !! j = Some x → truthy x = false
  | None => Forall (λ x, truthy x = false) results
  end.
Proof.
  induction results as [|x xs IH]; [by constructor|].
  rewrite filter_cons. destruct (decide (truthy x = true)) as [Hx|Hx].
  - simpl. exists 0%nat. repeat split; [done|]. intros j y Hj. lia.
  - destruct (filter _ xs !! 0%nat) as [e|] eqn:E.
    + destruct IH as (i & Hi & He & Hbefore).
      exists (S i). repeat split; [done..|].
      intros [|j] y Hj Hy; simpl in Hy.
      * injection Hy as <-. by destruct (truthy x).
      * apply (Hbefore j); [lia|done].
    + constructor; [by destruct (truthy x)|done].
Qed.

Lemma join_runs (rules : list Rule) value data w results w' :
  runs_all value data rules w results w' →
  join rules value data w
  = Return (default VUndefined
              (filter (λ error, truthy error = true) results !! 0%nat)) w'.
Proof.
  intros Hruns. apply Array_map_runs in Hruns.
  unfold join. by rewrite (bind_Return _ _ _ _ _ Hruns).
Qed.

Lemma runs_all_lookup value data rules w results w' i x :
  runs_all value data rules w results w' → results !! i = Some x →
  ∃ rule w1 w2, rules !! i = Some rule ∧ rule value data w1 = Return x w2.
Proof.
  intros Hruns. revert i.
  induction Hruns as [|rule rules w y w1 ys w2 Hy _ IH]; intros i Hi; [done|].
  destruct i as [|i]; simpl in Hi.
  - injection Hi as ->. by exists rule, w, w1.
  - destruct (IH i Hi) as (r & wa & wb & Hr & Hx). by exists r, wa, wb.
Qed.

(** A truthy result of [join] is the result of one of the rules. *)
Lemma join_sound (rules : list Rule) value data w e w' :
  join rules value data w = Return e w' → truthy e = true →
  ∃ rule w1 w2, rule ∈ rules ∧ rule value data w1 = Return e w2.
Proof.
  intros Hjoin He. unfold join in Hjoin.
  apply bind_inv in Hjoin as (results & w1 & Hmap & Hret).
  apply ret_inv in Hret as [<- <-]. apply Array_map_runs in Hmap.
  pose proof (first_truthy results) as H.
  destruct (filter _ results !! 0%nat) as [x|]; simpl in *; [|done].
  destruct H as (i & Hi & _).
  destruct (runs_all_lookup _ _ _ _ _ _ _ _ Hmap Hi) as (r & wa & wb & Hr & Hx).
  exists r, wa, wb. split; [|done]. by eapply list_elem_of_lookup_2.
Qed.

(** C2. For every list of rules, value and record: when the rules, run in
    list order, give the results [results], [join] returns the first
    truthy one of them, the one at the least index whose result is
    truthy, and returns [undefined] when every result is falsy. *)
Theorem join_first_error (rules : list Rule) value data w results w' :
  runs_all value data rules w results w' →
  ∃ r, join rules value data w = Return r w'
       ∧ ((∃ i, results !! i = Some r ∧ truthy r = true
                ∧ ∀ j x, (j < i)%nat → results !! j = Some x → truthy x = false)
          ∨ (Forall (λ x, truthy x = false) results ∧ r = VUndefined)).
Proof.
  intros Hruns. rewrite (join_runs _ _ _ _ _ _ Hruns).
  pose proof (first_truthy results) as H.
  destruct (filter _ results !! 0%nat) as [e|]; simpl.
  - exists e. split; [done|]. by left.
  - exists VUndefined. split; [done|]. by right.
Qed.

(** ** The predicate library *)


(** What [oneOf] does: [oneOf(values)(value)] returns the membership
    message exactly when [value] is one of [values], and [null] when it
    is not. *)
Lemma oneOf_reports_members (values : list JSValue) value data w :
  oneOf values value data w
  = Return (if bool_decide (value ∈ values)
            then VStr ("Value must be one of: " ++ Array_join ", " values)
            else VNull) w.
Proof.
  unfold oneOf, validateOneOf, ret. f_equal.
  assert ((0 <? length (filter (λ item, strict_eq item value = true) values))%nat
          = bool_decide (value ∈ values)) as ->; [|done].
  induction values as [|x xs IH]; [done|].
  rewrite filter_cons. unfold strict_eq at 1.
  destruct (decide (bool_decide (x = value) = true)) as [Hx|Hx].
  - apply bool_decide_eq_true in Hx as ->. simpl.
    symmetry. apply bool_decide_eq_true. by left.
  - rewrite IH. apply bool_decide_ext. rewrite elem_of_cons.
    rewrite bool_decide_eq_true in Hx. intuition congruence.
Qed.

(** C6, as amended. [isInFuture(value)] reads the clock once and returns
    the error message if and only if the value converts to a valid date
    strictly earlier than that reading; a date equal to the reading, a
    later date and a value that does not convert to a date all give
    [null]. *)
Theorem isInFuture_rejects_past Date_parse value data w :
  ∃ r, isInFuture Date_parse value data w = Return r (tick w)
       ∧ (r = VStr "Please choose a date in the future"
          ↔ ∃ t, new_Date Date_parse value = Some t ∧ (t < now w)%Z)
       ∧ (r = VNull
          ↔ ∀ t, new_Date Date_parse value = Some t → (now w ≤ t)%Z).
Proof.
  unfold isInFuture, bind, Date_now, ret, date_lt.
  destruct (new_Date Date_parse value) as [t|] eqn:E.
  - destruct (Z.ltb_spec t (now w)) as [Hlt|Hge]; eexists; (split; [done|]).
    + split; [by split; [exists t|]|].
      split; [done|]. intros H. specialize (H t eq_refl). lia.
    + split; [|by split; [intros _ t' [= <-]|]].
      split; [done|]. intros (t' & Ht' & Hlt). injection Ht' as <-. lia.
  - eexists. split; [done|]. split; [|done].
    split; [done|]. by intros (t & ? & _).
Qed.

(** C9. A value that does not convert to a date passes the date rules:
    [isInFuture] returns [null] on it, and [noLaterThan(field)] returns
    [null] whenever the value or the sibling field does not convert. *)
Theorem unparsable_dates_pass Date_parse field value data w :
  (new_Date Date_parse value = None →
   isInFuture Date_parse value data w = Return VNull (tick w))
  ∧ (new_Date Date_parse value = None
     ∨ new_Date Date_parse (get data field) = None →
     noLaterThan Date_parse field value data w = Return VNull w).
Proof.
  split.
  - intros H. unfold isInFuture, bind, Date_now, ret. by rewrite H.
  - intros H. unfold noLaterThan, ret, date_lt.
    destruct H as [-> | ->]; [done|]. by destruct (new_Date _ value).
Qed.

(** ** Schemas *)

Lemma prop_Some_rules {R} (S : schema R) key e :
  prop S key = Some e → rules_at S key = concat_entry e.
Proof. unfold rules_at. by intros ->. Qed.

Lemma prop_keys {R} (S : schema R) key :
  key ∈ Object_keys S → is_Some (prop S key).
Proof.
  unfold Object_keys. induction S as [|[k e] S IH]; simpl.
  - by intros ?%elem_of_nil.
  - intros [->|Hin]%elem_of_cons.
    + rewrite String.eqb_refl. by eexists.
    + destruct (String.eqb k key); [by eexists|by apply IH].
Qed.

Lemma rules_at_all {R} (S : schema R) key rule :
  rule ∈ rules_at S key → rule ∈ all_rules S.
Proof.
  unfold rules_at, all_rules. induction S as [|[k e] S IH]; simpl.
  - by intros ?%elem_of_nil.
  - rewrite elem_of_app. destruct (String.eqb k key); [by left|].
    intros H. right. by apply IH.
Qed.

Lemma concat_entry_map {A B} (f : A → B) (e : entry A) :
  concat_entry (entry_map f e) = map f (concat_entry e).
Proof. by destruct e. Qed.

Lemma keys_schema_of Date_parse L :
  Object_keys (schema_of Date_parse L) = Object_keys L.
Proof.
  unfold Object_keys, schema_of. induction L as [|[k e] L IH]; [done|].
  simpl. by f_equal.
Qed.

Lemma prop_schema_of Date_parse L key :
  prop (schema_of Date_parse L) key
  = entry_map (rule_of Date_parse) <$> prop L key.
Proof.
  unfold schema_of. induction L as [|[k e] L IH]; [done|].
  simpl. by destruct (String.eqb k key).
Qed.

Lemma rules_at_schema_of Date_parse L key :
  rules_at (schema_of Date_parse L) key
  = map (rule_of Date_parse) (rules_at L key).
Proof.
  unfold rules_at. rewrite prop_schema_of.
  destruct (prop L key) as [e|]; [|done]. apply concat_entry_map.
Qed.

(** ** [createValidator] *)

Lemma forEach_inv {A S} (body : A → S → Eval S) (I : S → Prop) l :
  (∀ x s w s' w', x ∈ l → I s → body x s w = Return s' w' → I s') →
  ∀ s w s' w', I s → forEach body l s w = Return s' w' → I s'.
Proof.
  induction l as [|x l IH]; intros Hbody s w s' w' Hs H.
  - apply ret_inv in H as [<- _]. done.
  - simpl in H. apply bind_inv in H as (s1 & w1 & Hx & H).
    eapply IH; [| |exact H].
    + intros y t wa t' wb Hy. apply Hbody. by right.
    + eapply Hbody; [by left|exact Hs|exact Hx].
Qed.

Lemma forEach_total {A S} (body : A → S → Eval S) l :
  (∀ x s w, x ∈ l → ∃ s' w', body x s w = Return s' w') →
  ∀ s w, ∃ s' w', forEach body l s w = Return s' w'.
Proof.
  induction l as [|x l IH]; intros Hbody s w.
  - by exists s, w.
  - destruct (Hbody x s w) as (s1 & w1 & Hx); [by left|].
    destruct (IH (λ y t wa Hy, Hbody y t wa (list_elem_of_further _ _ _ Hy)) s1 w1)
      as (s' & w' & H).
    exists s', w'. simpl. by rewrite (bind_Return _ _ _ _ _ Hx).
Qed.

(** Every entry of the error map is truthy and is what one of the rules
    of its field returned on the value of the field. *)
Lemma createValidator_sound (S : schema Rule) data w E w' :
  createValidator S data w = Return E w' →
  ∀ f e, E !! f = Some e →
    truthy e = true
    ∧ ∃ rule w1 w2, rule ∈ rules_at S f
                    ∧ rule (get data f) data w1 = Return e w2.
Proof.
  unfold createValidator.
  apply (forEach_inv _ (λ E : ErrorMap, ∀ f e, E !! f = Some e →
    truthy e = true
    ∧ ∃ rule w1 w2, rule ∈ rules_at S f
                    ∧ rule (get data f) data w1 = Return e w2)).
  - intros key errors wa errors' wb _ IH Hbody f e. unfold check_key in Hbody.
    destruct (prop S key) as [en|] eqn:Hprop; [|done].
    apply bind_inv in Hbody as (error & wc & Hjoin & Hret).
    apply ret_inv in Hret as [<- _].
    destruct (truthy error) eqn:Herr; [|by apply IH].
    unfold set. destruct (String.eqb key "__proto__"); [by apply IH|].
    rewrite lookup_insert. case_decide as Hk; [|by apply IH].
    subst f. intros [= <-]. split; [done|].
    rewrite (prop_Some_rules _ _ _ Hprop). by eapply join_sound.
  - intros f e. by rewrite lookup_empty.
Qed.

(** A truthy result of a rule of the library is a message: a string,
    and not the empty one. *)
Lemma lib_rule_message Date_parse (r : LibRule) value data w x w' :
  rule_of Date_parse r value data w = Return x w' → truthy x = true →
  ∃ msg, x = VStr msg ∧ msg ≠ "".
Proof.
  intros Hrun Hx.
  assert (∃ msg, x = VStr msg) as [msg ->].
  { destruct r; simpl in Hrun;
      unfold minLength, maxLength, valueRequired, containsSpecialChar,
        isInteger, containsNumber, containsLowercase, containsUppercase,
        containsTwoWords, isEmail, isValidDate, isInFuture, validateOneOf,
        matches, oneOf, validateOneOf, noLaterThan, validateWithRE, and_then,
        bind, Date_now, ret in Hrun;
      repeat match type of Hrun with
             | context [match ?c with _ => _ end] =>
                 destruct c eqn:?; try discriminate Hrun
             end;
      injection Hrun as <- _; try discriminate Hx; try congruence; eauto. }
  exists msg. split; [done|]. intros ->. done.
Qed.

(** C3. When the validator returns an error map, whatever the schema and
    the record: an entry of the map is a truthy value that one of the
    rules of its field returned on the value of the field, so the field
    has a failing rule; a field all of whose rules pass has no entry; and
    for a schema written with the library an entry is a non-empty message
    string. *)
Theorem error_map_sparse (S : schema Rule) data w E w' :
  createValidator S data w = Return E w' →
  ∀ f,
    (∀ e, E !! f = Some e →
       truthy e = true
       ∧ ∃ rule w1 w2, rule ∈ rules_at S f
                       ∧ rule (get data f) data w1 = Return e w2)
    ∧ ((∀ rule w1 x w2, rule ∈ rules_at S f →
          rule (get data f) data w1 = Return x w2 → truthy x = false) →
       E !! f = None)
    ∧ (∀ Date_parse L e, S = schema_of Date_parse L → E !! f = Some e →
         ∃ msg, e = VStr msg ∧ msg ≠ "").
Proof.
  intros Hrun f. pose proof (createValidator_sound _ _ _ _ _ Hrun f) as Hsound.
  split; [exact Hsound|]. split.
  - intros Hpass. destruct (E !! f) as [e|] eqn:He; [|done].
    destruct (Hsound e eq_refl) as (Htruthy & rule & w1 & w2 & Hin & Hrule).
    rewrite (Hpass rule w1 e w2 Hin Hrule) in Htruthy. done.
  - intros Date_parse L e -> He.
    destruct (Hsound e He) as (Htruthy & rule & w1 & w2 & Hin & Hrule).
    rewrite rules_at_schema_of in Hin.
    apply list_elem_of_fmap in Hin as (r & -> & _).
    by eapply lib_rule_message.
Qed.

(** ** The empty record *)

(** On [undefined], a rule that is not a comparison returns, and what it
    returns is an error only for the required-value rule. *)
Lemma rule_on_undefined Date_parse (r : LibRule) data w :
  is_comparison r = false →
  ∃ x w1, rule_of Date_parse r VUndefined data w = Return x w1
          ∧ if is_valueRequired r then x = VStr "Value Required"
            else truthy x = false.
Proof.
  intros Hr. destruct r; try discriminate Hr; simpl;
    unfold isInFuture, noLaterThan, bind, Date_now, ret; simpl; eauto.
Qed.

Lemma rules_on_undefined Date_parse (rs : list LibRule) data w :
  Forall (λ r, is_comparison r = false) rs →
  ∃ results w1,
    runs_all VUndefined data (map (rule_of Date_parse) rs) w results w1
    ∧ Forall2 (λ r x, if is_valueRequired r then x = VStr "Value Required"
                      else truthy x = false) rs results.
Proof.
  intros Hrs. revert w. induction Hrs as [|r rs Hr _ IH]; intros w.
  - exists [], w. split; constructor.
  - destruct (rule_on_undefined Date_parse r data w Hr) as (x & w1 & Hx & Hxr).
    destruct (IH w1) as (xs & w2 & Hxs & Hxsr).
    exists (x :: xs), w2. split; [by econstructor|by constructor].
Qed.

Lemma first_required (rs : list LibRule) (results : list JSValue) :
  Forall2 (λ r x, if is_valueRequired r then x = VStr "Value Required"
                  else truthy x = false) rs results →
  filter (λ error, truthy error = true) results !! 0%nat
  = if existsb is_valueRequired rs then Some (VStr "Value Required") else None.
Proof.
  induction 1 as [|r x rs xs Hrx _ IH]; [done|].
  rewrite filter_cons. simpl. destruct (is_valueRequired r); simpl.
  - by subst x.
  - rewrite decide_False; [done|]. by rewrite Hrx.
Qed.

Lemma join_on_undefined Date_parse (rs : list LibRule) data w :
  Forall (λ r, is_comparison r = false) rs →
  ∃ w1, join (map (rule_of Date_parse) rs) VUndefined data w
        = Return (if existsb is_valueRequired rs
                  then VStr "Value Required" else VUndefined) w1.
Proof.
  intros Hrs.
  destruct (rules_on_undefined Date_parse rs data w Hrs) as (xs & w1 & Hruns & Hxs).
  exists w1. rewrite (join_runs _ _ _ _ _ _ Hruns), (first_required _ _ Hxs).
  by destruct (existsb is_valueRequired rs).
Qed.

Lemma no_comparison_at (L : schema LibRule) key :
  no_comparison L = true →
  Forall (λ r, is_comparison r = false) (rules_at L key).
Proof.
  unfold no_comparison. rewrite forallb_forall, Forall_forall.
  intros H r Hr. apply rules_at_all, list_elem_of_In, H in Hr.
  by apply negb_true_iff.
Qed.

Lemma requires_value_keys (L : schema LibRule) key :
  requires_value L key = true → key ∈ Object_keys L.
Proof.
  unfold requires_value, rules_at, Object_keys.
  induction L as [|[k e] L IH]; simpl; [done|].
  destruct (String.eqb_spec k key) as [->|Hne]; [by left|].
  intros H. right. by apply IH.
Qed.

Lemma set_plain (errors : ErrorMap) key error :
  Object_prototype !! key = None → set errors key error = <[key := error]> errors.
Proof.
  intros Hkey. unfold set.
  destruct (String.eqb_spec key "__proto__") as [->|_]; [|done].
  discriminate Hkey.
Qed.

Lemma get_plain (data : record) key :
  data !! key = None → Object_prototype !! key = None →
  get data key = VUndefined.
Proof. intros Hown Hproto. unfold get. by rewrite Hown, Hproto. Qed.

Lemma plain_keys_at {R} (S : schema R) key :
  plain_keys S = true → key ∈ Object_keys S → Object_prototype !! key = None.
Proof.
  unfold plain_keys. rewrite forallb_forall. intros H Hkey.
  apply list_elem_of_In, H in Hkey. by apply bool_decide_eq_true in Hkey.
Qed.

Lemma check_key_empty_record Date_parse (L : schema LibRule) key E0 w :
  no_comparison L = true → key ∈ Object_keys L →
  Object_prototype !! key = None →
  ∃ w1, check_key (schema_of Date_parse L) ∅ key E0 w
        = Return (if requires_value L key
                  then <[key := VStr "Value Required"]> E0 else E0) w1.
Proof.
  intros HL Hkey Hplain. unfold check_key, requires_value.
  rewrite <- (keys_schema_of Date_parse) in Hkey.
  destruct (prop_keys _ _ Hkey) as [e He]. rewrite He.
  pose proof (rules_at_schema_of Date_parse L key) as Hrules.
  rewrite (prop_Some_rules _ _ _ He) in Hrules. simpl. rewrite Hrules.
  destruct (join_on_undefined Date_parse (rules_at L key) ∅ w
              (no_comparison_at _ _ HL)) as (w1 & Hjoin).
  exists w1. rewrite (get_plain ∅ key (lookup_empty key) Hplain).
  rewrite (bind_Return _ _ _ _ _ Hjoin).
  destruct (existsb is_valueRequired (rules_at L key)); [|done].
  simpl. unfold ret. by rewrite set_plain.
Qed.

Lemma validate_empty_record Date_parse (L : schema LibRule) keys :
  no_comparison L = true →
  (∀ k, k ∈ keys → k ∈ Object_keys L ∧ Object_prototype !! k = None) →
  ∀ E0 w, ∃ E w',
    forEach (check_key (schema_of Date_parse L) ∅) keys E0 w = Return E w'
    ∧ ∀ f, E !! f = if bool_decide (f ∈ keys) && requires_value L f
                    then Some (VStr "Value Required") else E0 !! f.
Proof.
  intros HL. induction keys as [|key keys IH]; intros Hkeys E0 w.
  - exists E0, w. split; [done|]. intros f.
    rewrite bool_decide_eq_false_2; [done|]. apply not_elem_of_nil.
  - destruct (Hkeys key) as [Hkey Hplain]; [by left|].
    destruct (check_key_empty_record Date_parse L key E0 w HL Hkey Hplain)
      as (w1 & Hstep).
    destruct (IH (λ k Hk, Hkeys k (list_elem_of_further _ _ _ Hk))
                (if requires_value L key
                 then <[key := VStr "Value Required"]> E0 else E0) w1)
      as (E & w' & Hrest & HE).
    exists E, w'. split; [simpl; by rewrite (bind_Return _ _ _ _ _ Hstep)|].
    intros f. rewrite HE.
    destruct (decide (f = key)) as [->|Hne].
    + rewrite (bool_decide_eq_true_2 (key ∈ key :: keys)) by (by left).
      destruct (requires_value L key); simpl.
      * rewrite lookup_insert_eq. by destruct (bool_decide (key ∈ keys)).
      * by rewrite andb_false_r.
    + assert (bool_decide (f ∈ key :: keys) = bool_decide (f ∈ keys)) as ->.
      { apply bool_decide_ext. rewrite elem_of_cons. intuition congruence. }
      destruct (bool_decide (f ∈ keys) && requires_value L f); [done|].
      destruct (requires_value L key); [|done]. by rewrite lookup_insert_ne.
Qed.

(** C1, as amended. For a schema written with the presence, length,
    character-class, format and date rules of the library (no equality or
    membership rule), none of whose fields bears the name of a member of
    [Object.prototype], the validator applied to the empty record returns
    an error map whose keys are exactly the fields that carry the
    required-value rule, each with the message ['Value Required']. *)
Theorem empty_record_errors Date_parse (L : schema LibRule) w :
  no_comparison L = true → plain_keys L = true →
  ∃ E w', createValidator (schema_of Date_parse L) ∅ w = Return E w'
          ∧ ∀ f, E !! f = if requires_value L f
                          then Some (VStr "Value Required") else None.
Proof.
  intros HL Hplain. unfold createValidator. rewrite keys_schema_of.
  destruct (validate_empty_record Date_parse L (Object_keys L) HL
              (λ k Hk, conj Hk (plain_keys_at L k Hplain Hk)) ∅ w)
    as (E & w' & Hrun & HE).
  exists E, w'. split; [done|]. intros f. rewrite HE, lookup_empty.
  destruct (requires_value L f) eqn:Hreq; [|by rewrite andb_false_r].
  by rewrite (bool_decide_eq_true_2 _ (requires_value_keys _ _ Hreq)).
Qed.

(** ** No exception on the values a form hands over *)

Ltac split_ifs :=
  repeat match goal with
         | |- context [if ?c then _ else _] => destruct c eqn:?
         end.

(** A rule of the library returns on a string and on an absent value. *)
Lemma rule_returns Date_parse (r : LibRule) value data w :
  string_or_absent value = true →
  ∃ x w1, rule_of Date_parse r value data w = Return x w1.
Proof.
  intros Hv.
  destruct value as [| | | |s|]; try discriminate Hv; destruct r; simpl;
    unfold minLength, maxLength, valueRequired, containsSpecialChar,
      isInteger, containsNumber, containsLowercase, containsUppercase,
      containsTwoWords, isEmail, isValidDate, isInFuture, validateOneOf,
      matches, oneOf, validateOneOf, noLaterThan, bind, Date_now, ret;
    simpl; split_ifs; simpl; eauto.
Qed.

Lemma runs_all_total value data (rules : list Rule) :
  (∀ rule w, rule ∈ rules → ∃ x w1, rule value data w = Return x w1) →
  ∀ w, ∃ results w', runs_all value data rules w results w'.
Proof.
  induction rules as [|rule rules IH]; intros Hrules w.
  - exists [], w. constructor.
  - destruct (Hrules rule w) as (x & w1 & Hx); [by left|].
    destruct (IH (λ r wa Hr, Hrules r wa (list_elem_of_further _ _ _ Hr)) w1)
      as (xs & w2 & Hxs).
    exists (x :: xs), w2. by econstructor.
Qed.

Lemma check_key_total (S : schema Rule) data key errors w :
  key ∈ Object_keys S →
  (∀ rule wa, rule ∈ rules_at S key →
     ∃ x w1, rule (get data key) data wa = Return x w1) →
  ∃ errors' w', check_key S data key errors w = Return errors' w'.
Proof.
  intros Hkey Hrules. unfold check_key.
  destruct (prop_keys _ _ Hkey) as [e He]. rewrite He.
  rewrite (prop_Some_rules _ _ _ He) in Hrules. simpl.
  destruct (runs_all_total _ _ _ Hrules w) as (results & w1 & Hruns).
  rewrite (bind_Return _ _ _ _ _ (join_runs _ _ _ _ _ _ Hruns)).
  unfold ret. eauto.
Qed.

Lemma get_string_or_absent (data : record) key :
  map_Forall (λ _ v, string_or_absent v = true) data →
  (data !! key = None → Object_prototype !! key = None) →
  string_or_absent (get data key) = true.
Proof.
  intros Hdata Hplain. unfold get.
  destruct (data !! key) as [v|] eqn:Hv; [exact (Hdata key v Hv)|].
  by rewrite (Hplain eq_refl).
Qed.

(** C7, as amended. For a schema written with the library and a record
    whose own fields hold strings, [undefined] or [null], such that no
    field of the schema that the record lacks bears the name of a member
    of [Object.prototype]: the validator returns an error map, no
    exception is raised.  A field the record lacks is then read as
    [undefined], and every failure is an entry of the map, a non-empty
    message string. *)
Theorem validator_never_throws Date_parse (L : schema LibRule) (data : record) w :
  map_Forall (λ _ v, string_or_absent v = true) data →
  (∀ key, key ∈ Object_keys L → data !! key = None →
          Object_prototype !! key = None) →
  (∀ key, key ∈ Object_keys L → data !! key = None → get data key = VUndefined)
  ∧ ∃ E w', createValidator (schema_of Date_parse L) data w = Return E w'
            ∧ ∀ f e, E !! f = Some e → ∃ msg, e = VStr msg ∧ msg ≠ "".
Proof.
  intros Hdata Hplain. split.
  { intros key Hkey Hown. apply get_plain; [done|by apply Hplain]. }
  destruct (forEach_total (check_key (schema_of Date_parse L) data)
              (Object_keys (schema_of Date_parse L))) with (s := (∅ : ErrorMap)) (w := w)
    as (E & w' & Hrun).
  { intros key errors wa Hkey. apply check_key_total; [done|].
    intros rule wb Hrule. rewrite rules_at_schema_of in Hrule.
    apply list_elem_of_fmap in Hrule as (r & -> & _).
    rewrite keys_schema_of in Hkey.
    apply rule_returns, get_string_or_absent; [done|by apply Hplain]. }
  exists E, w'. split; [exact Hrun|].
  intros f e He.
  destruct (createValidator_sound _ _ _ _ _ Hrun f e He)
    as (Htruthy & rule & w1 & w2 & Hin & Hrule).
  rewrite rules_at_schema_of in Hin.
  apply list_elem_of_fmap in Hin as (r & -> & _).
  by eapply lib_rule_message.
Qed.

(** ** Equality without a guard *)

(** C10. [matches(matchVal)] has no guard for absent values: whenever the
    candidate is not strictly equal to the target it returns
    ['Values must match'], also when the candidate is [undefined], [null]
    or the empty string; and a field that carries only that rule and
    holds such a candidate gets this entry in the error map, with no
    required-value rule in the schema. *)
Theorem matches_has_no_guard (matchVal currentVal : JSValue) data w :
  strict_eq matchVal currentVal = false →
  matches matchVal currentVal data w = Return (VStr "Values must match") w
  ∧ ∀ f (d : record),
      f ≠ "__proto__" → get d f = currentVal →
      createValidator [(f, Single (matches matchVal))] d w
      = Return {[ f := VStr "Values must match" ]} w.
Proof.
  intros Hne. split.
  - unfold matches, ret. by rewrite Hne.
  - intros f d Hf Hget.
    assert (runs_all (get d f) d [matches matchVal] w
              [VStr "Values must match"] w) as Hruns.
    { econstructor; [|constructor]. rewrite Hget. unfold matches, ret.
      by rewrite Hne. }
    assert (check_key [(f, Single (matches matchVal))] d f ∅ w
            = Return {[ f := VStr "Values must match" ]} w) as Hstep.
    { unfold check_key. simpl. rewrite String.eqb_refl. simpl.
      rewrite (bind_Return _ _ _ _ _ (join_runs _ _ _ _ _ _ Hruns)).
      simpl. unfold ret, set. by destruct (String.eqb_spec f "__proto__"). }
    unfold createValidator. simpl. by rewrite (bind_Return _ _ _ _ _ Hstep).
Qed.

(** ** Determinism *)

Section Respect.

Variable R : World → World → Prop.

Lemma respects_ret {A} (a : A) : respects R (ret a).
Proof. intros w1 w2 HR. by split. Qed.

Lemma respects_throw {A} e : respects R (@throw A e).
Proof. by intros w1 w2 HR. Qed.

Lemma respects_bind {A B} (m : Eval A) (k : A → Eval B) :
  respects R m → (∀ a, respects R (k a)) → respects R (bind m k).
Proof.
  intros Hm Hk w1 w2 HR. specialize (Hm w1 w2 HR). unfold bind.
  destruct (m w1) as [a wa|e1], (m w2) as [b wb|e2]; simpl in Hm; try done.
  destruct Hm as [<- HR']. by apply Hk.
Qed.

Lemma respects_Array_map {A B} (f : A → Eval B) l :
  (∀ x, x ∈ l → respects R (f x)) → respects R (Array_map f l).
Proof.
  induction l as [|x l IH]; intros Hf; [apply respects_ret|].
  simpl. apply respects_bind; [apply Hf; by left|]. intros y.
  apply respects_bind; [|intros ys; apply respects_ret].
  apply IH. intros z Hz. apply Hf. by right.
Qed.

Lemma respects_forEach {A S} (body : A → S → Eval S) l :
  (∀ x s, x ∈ l → respects R (body x s)) → ∀ s, respects R (forEach body l s).
Proof.
  induction l as [|x l IH]; intros Hbody s; [apply respects_ret|].
  simpl. apply respects_bind; [apply Hbody; by left|]. intros s'.
  apply IH. intros y t Hy. apply Hbody. by right.
Qed.

Lemma respects_join (rules : list Rule) value data :
  (∀ rule, rule ∈ rules → respects R (rule value data)) →
  respects R (join rules value data).
Proof.
  intros Hrules. unfold join. apply respects_bind.
  - by apply respects_Array_map.
  - intros results. apply respects_ret.
Qed.

Lemma respects_createValidator (S : schema Rule) data :
  (∀ rule value, rule ∈ all_rules S → respects R (rule value data)) →
  respects R (createValidator S data).
Proof.
  intros Hrules. unfold createValidator. apply respects_forEach.
  intros key errors _. unfold check_key.
  destruct (prop S key) as [e|] eqn:He; [|apply respects_throw].
  apply respects_bind; [|intros error; apply respects_ret].
  apply respects_join. intros rule Hrule. apply Hrules.
  apply (rules_at_all S key). by rewrite (prop_Some_rules _ _ _ He).
Qed.

Lemma agree_result {A} (o1 o2 : outcome A) :
  agree R o1 o2 → result_of o1 = result_of o2.
Proof.
  destruct o1 as [a w1|e1], o2 as [b w2|e2]; simpl; try done.
  - by intros [-> _].
  - by intros ->.
Qed.

End Respect.

Lemma all_rules_schema_of Date_parse L :
  all_rules (schema_of Date_parse L) = map (rule_of Date_parse) (all_rules L).
Proof.
  unfold all_rules, schema_of. induction L as [|[k e] L IH]; [done|].
  simpl. rewrite map_app, <- IH. f_equal. apply concat_entry_map.
Qed.

Ltac respects_step :=
  first [ apply respects_ret | apply respects_throw
        | apply respects_bind; [|intros ?] ].

(** A rule that is not [isInFuture] never looks at the world. *)
Lemma rule_clock_free R Date_parse (r : LibRule) value data :
  is_time_dependent r = false → respects R (rule_of Date_parse r value data).
Proof.
  intros Hr. destruct r; try discriminate Hr; simpl;
    unfold minLength, maxLength, valueRequired, containsSpecialChar,
      isInteger, containsNumber, containsLowercase, containsUppercase,
      containsTwoWords, isEmail, isValidDate, validateOneOf, matches, oneOf,
      validateOneOf, noLaterThan, length_of, call_toLowerCase;
    split_ifs; repeat respects_step; destruct value; repeat respects_step.
Qed.

Lemma same_clock_tick w1 w2 :
  same_clock w1 w2 → now w1 = now w2 ∧ same_clock (tick w1) (tick w2).
Proof.
  intros H. split.
  - specialize (H 0%nat). by rewrite !Nat.add_0_r in H.
  - intros i. specialize (H (S i)). simpl. by rewrite !Nat.add_succ_r in H.
Qed.

(** [isInFuture] looks at the world through one reading of the clock. *)
Lemma rule_same_clock Date_parse (r : LibRule) value data :
  respects same_clock (rule_of Date_parse r value data).
Proof.
  destruct (is_time_dependent r) eqn:Hr; [|by apply rule_clock_free].
  destruct r; try discriminate Hr. simpl.
  intros w1 w2 [Hnow Htick]%same_clock_tick.
  unfold isInFuture, bind, Date_now, ret. rewrite Hnow. by split.
Qed.

(** C8. Two calls of a validator on structurally equal records, in worlds
    whose clocks give the same readings, have the same result: the same
    error map, or the same exception.  When no rule of the schema is
    [isInFuture], the result is the same in any two worlds: it depends on
    the schema and the record alone. *)
Theorem validator_deterministic Date_parse (L : schema LibRule)
    (d1 d2 : record) w1 w2 :
  (∀ key, d1 !! key = d2 !! key) →
  (same_clock w1 w2 →
   result_of (createValidator (schema_of Date_parse L) d1 w1)
   = result_of (createValidator (schema_of Date_parse L) d2 w2))
  ∧ (time_free L = true →
     result_of (createValidator (schema_of Date_parse L) d1 w1)
     = result_of (createValidator (schema_of Date_parse L) d2 w2)).
Proof.
  intros Heq. apply map_eq in Heq as ->. split.
  - intros Hclock. apply (agree_result same_clock).
    apply respects_createValidator; [|done].
    intros rule value Hrule. rewrite all_rules_schema_of in Hrule.
    apply list_elem_of_fmap in Hrule as (r & -> & _). apply rule_same_clock.
  - intros Hfree. apply (agree_result (λ _ _, True)).
    apply respects_createValidator; [|done].
    intros rule value Hrule. rewrite all_rules_schema_of in Hrule.
    apply list_elem_of_fmap in Hrule as (r & -> & Hr).
    apply rule_clock_free. unfold time_free in Hfree.
    rewrite forallb_forall in Hfree.
    apply list_elem_of_In, Hfree in Hr. by apply negb_true_iff.
Qed.

(** ** The properties at the sample forms *)

(** C1 as stated fails: the confirmation field of the sign-up form has no
    required-value rule, and the empty record gets an error for it. *)
Lemma empty_record_matches_error :
  createValidator (schema_of IsoDate.parse signup_form) ∅ sample_world
  = Return (<[ "email" := VStr "Value Required" ]>
              (<[ "password" := VStr "Value Required" ]>
                 (<[ "passwordConfirmation" := VStr "Values must match" ]> ∅)))
           sample_world
  ∧ requires_value signup_form "passwordConfirmation" = false.
Proof. split; reflexivity. Qed.

(** The event form has no comparison rule: on the empty record its
    required fields, and only they, are reported. *)
Lemma empty_record_errors_event_form :
  no_comparison event_form = true
  ∧ plain_keys event_form = true
  ∧ ∃ E w',
      createValidator (schema_of IsoDate.parse event_form) ∅ sample_world
      = Return E w'
      ∧ ∀ f, E !! f = if requires_value event_form f
                      then Some (VStr "Value Required") else None.
Proof.
  split; [reflexivity|]. split; [reflexivity|].
  apply (empty_record_errors IsoDate.parse event_form sample_world);
    reflexivity.
Defined.

(** A name of two letters passes the required-value rule and fails the
    two that follow: [join] reports the length. *)
Lemma join_first_error_short_name :
  runs_all (VStr "ab") ∅ [valueRequired; minLength 3; isEmail] sample_world
    [VUndefined; VStr "Value must contain at least 3 characters";
     VStr "Must be a valid email address."] sample_world
  ∧ ∃ r, join [valueRequired; minLength 3; isEmail] (VStr "ab") ∅ sample_world
         = Return r sample_world
         ∧ ((∃ i, [VUndefined; VStr "Value must contain at least 3 characters";
                   VStr "Must be a valid email address."] !! i = Some r
                  ∧ truthy r = true
                  ∧ ∀ j x, (j < i)%nat →
                      [VUndefined; VStr "Value must contain at least 3 characters";
                       VStr "Must be a valid email address."] !! j = Some x →
                      truthy x = false)
            ∨ (Forall (λ x, truthy x = false)
                 [VUndefined; VStr "Value must contain at least 3 characters";
                  VStr "Must be a valid email address."]
               ∧ r = VUndefined)).
Proof.
  assert (runs_all (VStr "ab") ∅ [valueRequired; minLength 3; isEmail] sample_world
            [VUndefined; VStr "Value must contain at least 3 characters";
             VStr "Must be a valid email address."] sample_world) as Hruns.
  { repeat (econstructor; [reflexivity|]). constructor. }
  split; [exact Hruns|].
  exact (join_first_error _ _ _ _ _ _ Hruns).
Defined.

(** The error map of the event draft. *)
Lemma error_map_sparse_event_draft :
  createValidator (schema_of IsoDate.parse event_form) event_draft sample_world
  = Return event_draft_errors (tick sample_world)
  ∧ ∀ f,
      (∀ e, event_draft_errors !! f = Some e →
         truthy e = true
         ∧ ∃ rule w1 w2,
             rule ∈ rules_at (schema_of IsoDate.parse event_form) f
             ∧ rule (get event_draft f) event_draft w1 = Return e w2)
      ∧ ((∀ rule w1 x w2,
            rule ∈ rules_at (schema_of IsoDate.parse event_form) f →
            rule (get event_draft f) event_draft w1 = Return x w2 →
            truthy x = false) →
         event_draft_errors !! f = None)
      ∧ (∀ Date_parse L e,
           schema_of IsoDate.parse event_form = schema_of Date_parse L →
           event_draft_errors !! f = Some e →
           ∃ msg, e = VStr msg ∧ msg ≠ "").
Proof.
  assert (createValidator (schema_of IsoDate.parse event_form) event_draft
            sample_world = Return event_draft_errors (tick sample_world)) as Hrun.
  { reflexivity. }
  split; [exact Hrun|].
  exact (error_map_sparse (schema_of IsoDate.parse event_form) event_draft
           sample_world event_draft_errors (tick sample_world) Hrun).
Defined.


(** C5: the code at a member and at a stranger of the list. *)
Theorem oneOf_rejects_member :
  oneOf [VStr "party"; VStr "meeting"] (VStr "party") ∅ sample_world
  = Return (VStr "Value must be one of: party, meeting") sample_world
  ∧ oneOf [VStr "party"; VStr "meeting"] (VStr "funeral") ∅ sample_world
    = Return VNull sample_world.
Proof. split; apply oneOf_reports_members. Qed.

(** C6 as stated fails: a date equal to the reading of the clock is not
    strictly after it, and [isInFuture] accepts it. *)
Lemma isInFuture_accepts_now :
  new_Date IsoDate.parse (VStr "2023-11-14T22:13:20.000Z") = Some (now sample_world)
  ∧ isInFuture IsoDate.parse (VStr "2023-11-14T22:13:20.000Z") ∅ sample_world
    = Return VNull (tick sample_world).
Proof. split; reflexivity. Qed.

(** C7 as stated fails: the empty record has no field [toString], and a
    validator that checks such a field reads the inherited function and
    raises when the rule calls [toLowerCase] on it. *)
Lemma validator_throws_on_inherited :
  map_Forall (λ _ v, string_or_absent v = true) (∅ : record)
  ∧ (∅ : record) !! "toString" = None
  ∧ get ∅ "toString" = native_function "toString" 0
  ∧ createValidator (schema_of IsoDate.parse [("toString", Single ContainsTwoWords)])
      ∅ sample_world
    = Throw TypeError.
Proof. split; [apply map_Forall_empty|]. repeat split; reflexivity. Qed.

(** The event draft holds strings only, and the one field it lacks,
    [guests], is not inherited: validating it returns. *)
Lemma validator_never_throws_event_draft :
  map_Forall (λ _ v, string_or_absent v = true) event_draft
  ∧ (∀ key, key ∈ Object_keys event_form → event_draft !! key = None →
            get event_draft key = VUndefined)
  ∧ ∃ E w',
      createValidator (schema_of IsoDate.parse event_form) event_draft sample_world
      = Return E w'
      ∧ ∀ f e, E !! f = Some e → ∃ msg, e = VStr msg ∧ msg ≠ "".
Proof.
  assert (map_Forall (λ _ v, string_or_absent v = true) event_draft) as Hdraft.
  { compute_done. }
  split; [exact Hdraft|].
  apply (validator_never_throws IsoDate.parse event_form event_draft
           sample_world Hdraft).
  intros key Hkey _. by apply (plain_keys_at event_form).
Defined.

(** The draft and its reordered copy, validated in two worlds whose clocks
    agree from now on. *)
Lemma validator_deterministic_event_draft :
  same_clock sample_world later_world
  ∧ result_of (createValidator (schema_of IsoDate.parse event_form)
                 event_draft sample_world)
    = result_of (createValidator (schema_of IsoDate.parse event_form)
                   event_draft' later_world)
  ∧ time_free signup_form = true
  ∧ result_of (createValidator (schema_of IsoDate.parse signup_form)
                 event_draft sample_world)
    = result_of (createValidator (schema_of IsoDate.parse signup_form)
                   event_draft' epoch_world).
Proof.
  assert (same_clock sample_world later_world) as Hclock.
  { intros i. simpl. lia. }
  assert (∀ key, event_draft !! key = event_draft' !! key) as Hsame.
  { intros key. reflexivity. }
  assert (time_free signup_form = true) as Hfree by reflexivity.
  split; [exact Hclock|]. split; [|split; [exact Hfree|]].
  - exact (proj1 (validator_deterministic IsoDate.parse event_form event_draft
                    event_draft' sample_world later_world Hsame) Hclock).
  - exact (proj2 (validator_deterministic IsoDate.parse signup_form event_draft
                    event_draft' sample_world epoch_world Hsame) Hfree).
Defined.

(** A string the reference engine does not recognise. *)
Lemma unparsable_dates_pass_next_friday :
  new_Date IsoDate.parse (VStr "next friday") = None
  ∧ isInFuture IsoDate.parse (VStr "next friday") event_draft sample_world
    = Return VNull (tick sample_world)
  ∧ noLaterThan IsoDate.parse "startDate" (VStr "next friday") event_draft
      sample_world
    = Return VNull sample_world.
Proof.
  assert (new_Date IsoDate.parse (VStr "next friday") = None) as Hnone.
  { reflexivity. }
  split; [exact Hnone|]. split.
  - exact (proj1 (unparsable_dates_pass IsoDate.parse "startDate"
                    (VStr "next friday") event_draft sample_world) Hnone).
  - exact (proj2 (unparsable_dates_pass IsoDate.parse "startDate"
                    (VStr "next friday") event_draft sample_world)
             (or_introl Hnone)).
Defined.

(** An untouched confirmation field. *)
Lemma matches_has_no_guard_untouched :
  strict_eq (VStr "hunter42") VUndefined = false
  ∧ matches (VStr "hunter42") VUndefined ∅ sample_world
    = Return (VStr "Values must match") sample_world
  ∧ ∀ f (d : record),
      f ≠ "__proto__" → get d f = VUndefined →
      createValidator [(f, Single (matches (VStr "hunter42")))] d sample_world
      = Return {[ f := VStr "Values must match" ]} sample_world.
Proof.
  split; [reflexivity|].
  apply (matches_has_no_guard (VStr "hunter42") VUndefined ∅ sample_world).
  reflexivity.
Defined.

(** * Further properties of the validation module *)

(** ** How [join] composes *)

Lemma join_inv (rules : list Rule) value data w r w' :
  join rules value data w = Return r w' →
  ∃ results,
    runs_all value data rules w results w'
    ∧ r = default VUndefined
            (filter (λ error, truthy error = true) results !! 0%nat).
Proof.
  unfold join. intros (results & w1 & Hmap & Hret)%bind_inv.
  apply ret_inv in Hret as [<- <-]. exists results.
  split; [by apply Array_map_runs|done].
Qed.

Lemma runs_all_app value data rules1 rules2 w xs w1 ys w2 :
  runs_all value data rules1 w xs w1 →
  runs_all value data rules2 w1 ys w2 →
  runs_all value data (rules1 ++ rules2) w (xs ++ ys) w2.
Proof.
  induction 1 as [|rule rules w x wa xs wb Hx _ IH]; intros Hys; [done|].
  simpl. econstructor; [exact Hx|by apply IH].
Qed.

(** The first error of a list of results is falsy only when it is
    [undefined], none of the results being an error. *)
Lemma first_error_falsy (results : list JSValue) :
  truthy (default VUndefined
            (filter (λ error, truthy error = true) results !! 0%nat)) = false →
  filter (λ error, truthy error = true) results = [].
Proof.
  pose proof (first_truthy results) as H.
  destruct (filter _ results) as [|e es] eqn:E; [done|]. simpl in *.
  destruct H as (_ & _ & He & _). by rewrite He.
Qed.

(** X1. Joining two lists of rules end to end: when [join] of the first
    list returns [r1] and [join] of the second, run next, returns [r2],
    [join] of the concatenation returns [r1] if it is an error and [r2]
    otherwise. *)
Theorem join_concat (rules1 rules2 : list Rule) value data w r1 w1 r2 w2 :
  join rules1 value data w = Return r1 w1 →
  join rules2 value data w1 = Return r2 w2 →
  join (rules1 ++ rules2) value data w
  = Return (if truthy r1 then r1 else r2) w2.
Proof.
  intros (xs & Hxs & ->)%join_inv (ys & Hys & ->)%join_inv.
  rewrite (join_runs _ _ _ _ _ _ (runs_all_app _ _ _ _ _ _ _ _ _ Hxs Hys)).
  f_equal. rewrite filter_app.
  destruct (truthy (default VUndefined (filter _ xs !! 0%nat))) eqn:Hr1.
  - destruct (filter _ xs) as [|e es]; [done|]. done.
  - by rewrite (first_error_falsy _ Hr1).
Qed.

(** X2. [join] runs every rule: when the rules before one that raises all
    return, [join] raises too, whatever errors the earlier rules have
    reported and whatever follows. *)
Theorem join_raises (rules1 rules2 : list Rule) (rule : Rule)
    value data w results w1 e :
  runs_all value data rules1 w results w1 →
  rule value data w1 = Throw e →
  join (rules1 ++ rule :: rules2) value data w = Throw e.
Proof.
  intros Hruns Hrule. unfold join.
  set (run := Array_map _).
  assert (run (rules1 ++ rule :: rules2)%list w = Throw e) as Hmap.
  { subst run. induction Hruns as [|r rs wa x wb xs wc Hx _ IH]; simpl.
    - unfold bind. by rewrite Hrule.
    - rewrite (bind_Return _ _ _ _ _ Hx). unfold bind at 1.
      by rewrite (IH Hrule). }
  unfold bind. by rewrite Hmap.
Qed.

(** ** What [createValidator] records for each field *)

Lemma check_key_inv (S : schema Rule) data key errors w errors' w' :
  check_key S data key errors w = Return errors' w' →
  ∃ e, join (rules_at S key) (get data key) data w = Return e w'
       ∧ errors' = if truthy e then set errors key e else errors.
Proof.
  unfold check_key, rules_at. destruct (prop S key) as [en|]; [|done].
  simpl. intros (e & w1 & Hjoin & Hret)%bind_inv.
  apply ret_inv in Hret as [<- <-]. by exists e.
Qed.

Lemma validate_keys_complete (S : schema Rule) data keys :
  ∀ E0 w E w',
    forEach (check_key S data) keys E0 w = Return E w' →
    ∀ f, f ≠ "__proto__" →
      (f ∉ keys → E !! f = E0 !! f)
      ∧ (f ∈ keys →
         ∃ w1 w2 e,
           join (rules_at S f) (get data f) data w1 = Return e w2
           ∧ E !! f = if truthy e then Some e else E0 !! f).
Proof.
  induction keys as [|key keys IH]; intros E0 w E w' Hrun f Hf.
  - apply ret_inv in Hrun as [<- _]. split; [done|]. by intros ?%elem_of_nil.
  - simpl in Hrun. apply bind_inv in Hrun as (E1 & w1 & Hstep & Hrest).
    apply check_key_inv in Hstep as (e0 & Hjoin & HE1).
    destruct (IH _ _ _ _ Hrest f Hf) as [Hout Hin].
    assert (f ≠ key → E1 !! f = E0 !! f) as Hother.
    { intros Hne. subst E1. destruct (truthy e0); [|done]. unfold set.
      destruct (String.eqb key "__proto__"); [done|].
      by rewrite lookup_insert_ne. }
    assert (E1 !! key = if truthy e0 then
                          (if String.eqb key "__proto__" then E0 !! key
                           else Some e0)
                        else E0 !! key) as Hkey.
    { subst E1. destruct (truthy e0); [|done]. unfold set.
      destruct (String.eqb key "__proto__"); [done|].
      by rewrite lookup_insert_eq. }
    split.
    + intros Hnot. apply not_elem_of_cons in Hnot as [Hne Hnot].
      rewrite (Hout Hnot). by apply Hother.
    + intros Hmem. destruct (decide (f ∈ keys)) as [Hlater|Hlater].
      * destruct (Hin Hlater) as (wa & wb & e & Hje & HE).
        destruct (truthy e) eqn:He.
        { exists wa, wb, e. by rewrite He. }
        destruct (decide (f = key)) as [->|Hne].
        -- exists w, w1, e0. rewrite HE, Hkey.
           destruct (String.eqb_spec key "__proto__"); [done|].
           by destruct (truthy e0).
        -- exists wa, wb, e. rewrite He, HE. split; [done|by apply Hother].
      * apply elem_of_cons in Hmem as [->|?]; [|done].
        exists w, w1, e0. rewrite (Hout Hlater), Hkey.
        destruct (String.eqb_spec key "__proto__"); [done|].
        by destruct (truthy e0).
Qed.

(** X3. Every field of the schema is accounted for in the error map the
    validator returns: for a field of the schema (other than [__proto__])
    the entry is what [join] of the rules of the field returned on the
    value of the field when that is an error, and there is no entry when
    it is not; and a key that is no field of the schema has no entry. *)
Theorem error_map_complete (S : schema Rule) data w E w' :
  createValidator S data w = Return E w' →
  ∀ f, f ≠ "__proto__" →
    (f ∈ Object_keys S →
     ∃ w1 w2 e,
       join (rules_at S f) (get data f) data w1 = Return e w2
       ∧ E !! f = if truthy e then Some e else None)
    ∧ (f ∉ Object_keys S → E !! f = None).
Proof.
  intros Hrun f Hf.
  destruct (validate_keys_complete _ _ _ _ _ _ _ Hrun f Hf) as [Hout Hin].
  split.
  - intros Hmem. destruct (Hin Hmem) as (w1 & w2 & e & Hjoin & HE).
    exists w1, w2, e. by rewrite lookup_empty in HE.
  - intros Hnot. by rewrite (Hout Hnot), lookup_empty.
Qed.

(** X4. The validator never records an entry under the key [__proto__]:
    an error found for a field of that name is dropped. *)
Theorem error_map_drops_proto (S : schema Rule) data w E w' :
  createValidator S data w = Return E w' → E !! "__proto__" = None.
Proof.
  unfold createValidator.
  apply (forEach_inv _ (λ E : ErrorMap, E !! "__proto__" = None)); [|done].
  intros key errors wa errors' wb _ IH (e & _ & ->)%check_key_inv.
  destruct (truthy e); [|done]. unfold set.
  destruct (String.eqb_spec key "__proto__") as [->|Hne]; [done|].
  by rewrite lookup_insert_ne.
Qed.

(** X5. A bare rule and the array of that one rule are the same schema
    entry: two schemas with the same fields, whose entries hold the same
    rules in the same order, give the same validator. *)
Theorem createValidator_normalises (S S' : schema Rule) data w :
  Forall2 (λ a b, a.1 = b.1 ∧ concat_entry a.2 = concat_entry b.2) S S' →
  createValidator S data w = createValidator S' data w.
Proof.
  intros Hsame.
  assert (∀ key errors, check_key S data key errors
                        = check_key S' data key errors) as Hcheck.
  { intros key errors. unfold check_key.
    induction Hsame as [|[k e] [k' e'] S S' [Hk He] _ IH]; [done|].
    simpl in *. subst k'. destruct (String.eqb k key); [|by apply IH].
    by rewrite He. }
  assert (Object_keys S = Object_keys S') as Hkeys.
  { clear Hcheck. unfold Object_keys.
    induction Hsame as [|a b S S' [Hk _] _ IH]; [done|].
    simpl. by f_equal. }
  unfold createValidator. rewrite Hkeys. clear Hkeys.
  generalize (∅ : ErrorMap). revert w.
  induction (Object_keys S') as [|key keys IH]; intros w E0; [done|].
  simpl. rewrite Hcheck. unfold bind.
  destruct (check_key S' data key E0 w); [apply IH|done].
Qed.

(** ** More on the predicate library *)

(** X6. [noLaterThan] is a strict order test: it accepts a date against
    itself, and it never rejects a pair of dates in both orders: when
    the end [v] is rejected against the start [u], the end [u] is accepted
    against the start [v]. *)
Theorem noLaterThan_asymmetric Date_parse field (u v : JSValue)
    (d d' : record) w :
  get d field = u → get d' field = v →
  (u = v → noLaterThan Date_parse field v d w = Return VNull w)
  ∧ (noLaterThan Date_parse field v d w
     = Return (VStr "The end date must come after the start date") w →
     noLaterThan Date_parse field u d' w = Return VNull w).
Proof.
  intros Hu Hv. unfold noLaterThan, ret, date_lt. rewrite Hu, Hv. split.
  - intros ->. destruct (new_Date Date_parse v) as [t|]; [|done].
    by rewrite Z.ltb_irrefl.
  - destruct (new_Date Date_parse v) as [t|], (new_Date Date_parse u) as [t'|];
      try done.
    destruct (Z.ltb_spec t t'), (Z.ltb_spec t' t); try done. lia.
Qed.

Lemma runs_window lo hi (value : JSValue) data w x y :
  minLength lo value data w = Return x w →
  maxLength hi value data w = Return y w →
  join [minLength lo; maxLength hi] value data w
  = Return (if truthy x then x else if truthy y then y else VUndefined) w.
Proof.
  intros Hx Hy.
  rewrite (join_runs _ _ _ _ [x; y] w);
    [|by repeat (econstructor; [eassumption|]); constructor].
  rewrite !filter_cons, filter_nil.
  by destruct (truthy x), (truthy y).
Qed.

(** X7. A length window: on a string, [join] of [minLength(lo)] and
    [maxLength(hi)] reports no error exactly when the string is empty or
    its length lies between [lo] and [hi]; a non-empty string that is too
    short gets the message of [minLength], and one that is long enough
    but too long gets the message of [maxLength]. *)
Theorem length_window (lo hi : Z) (s : string) data w :
  let len := Z.of_nat (String.length s) in
  ∃ r, join [minLength lo; maxLength hi] (VStr s) data w = Return r w
       ∧ (truthy r = false ↔ s = "" ∨ (lo ≤ len ∧ len ≤ hi)%Z)
       ∧ (s ≠ "" → (len < lo)%Z →
          r = VStr ("Value must contain at least " ++ pretty lo ++ " characters"))
       ∧ (s ≠ "" → (lo ≤ len)%Z → (hi < len)%Z →
          r = VStr ("Value must be no more than " ++ pretty hi
                    ++ " characters in length")).
Proof.
  intros len. destruct (decide (s = "")) as [->|Hs].
  - exists VUndefined. split; [done|]. split; [|done]. split; [by left|done].
  - assert (noValue (VStr s) = false) as Hno.
    { unfold noValue, strict_eq. rewrite !orb_false_iff.
      repeat split; apply bool_decide_eq_false; congruence. }
    eexists. split.
    { apply runs_window; unfold minLength, maxLength, bind, ret;
        rewrite Hno; simpl; reflexivity. }
    fold len. unfold num_lt, num_gt.
    destruct (Z.ltb_spec len lo) as [Hlo|Hlo]; simpl.
    + split; [split; [done|intros [?|[? ?]]; [done|lia]]|].
      split; [done|]. intros _ ?. lia.
    + destruct (Z.ltb_spec hi len) as [Hhi|Hhi]; simpl.
      * split; [split; [done|intros [?|[? ?]]; [done|lia]]|].
        split; [intros _ ?; lia|done].
      * split; [split; [by right|done]|]. split; intros _ ?; lia.
Qed.

Lemma lower_unit_idemp c : lower_unit (lower_unit c) = lower_unit c.
Proof. destruct c as [[] [] [] [] [] [] [] []]; reflexivity. Qed.

Lemma toLowerCase_idemp s : toLowerCase (toLowerCase s) = toLowerCase s.
Proof.
  induction s as [|c s IH]; [done|]. simpl. by rewrite lower_unit_idemp, IH.
Qed.

Lemma toLowerCase_empty s : toLowerCase s = "" ↔ s = "".
Proof. by destruct s. Qed.

(** X8. [containsTwoWords] does not look at the case of letters: a string
    and its lower-case form get the same verdict. *)
Theorem containsTwoWords_ignores_case (s : string) data w :
  containsTwoWords (VStr s) data w
  = containsTwoWords (VStr (toLowerCase s)) data w.
Proof.
  unfold containsTwoWords, bind, ret, and_then, call_toLowerCase. simpl.
  destruct s as [|c s]; [done|]. simpl.
  by rewrite lower_unit_idemp, toLowerCase_idemp.
Qed.

(** ** What the patterns accept *)

Lemma append_empty (s1 s2 : string) : s1 ++ s2 = "" → s1 = "" ∧ s2 = "".
Proof. by destruct s1. Qed.

Lemma nullable_lang r : nullable r = true ↔ lang r "".
Proof.
  split.
  - induction r; simpl; intros H; try done.
    + constructor.
    + apply andb_true_iff in H as [??]. apply (lang_seq _ _ "" ""); auto.
    + apply orb_true_iff in H as [?|?]; [apply lang_alt_l|apply lang_alt_r]; auto.
    + constructor.
    + apply andb_true_iff in H as [??]. constructor; auto.
  - remember "" as s eqn:Hs. induction 1; simpl; try done.
    + apply append_empty in Hs as [-> ->]. by rewrite IHlang1, IHlang2.
    + by rewrite IHlang.
    + rewrite IHlang; [apply orb_true_r|done].
    + by rewrite IHlang1, IHlang2.
Qed.

Lemma lang_none s : ¬ lang re_none s.
Proof. inversion 1. Qed.

Lemma lang_mk_seq r1 r2 s : lang (mk_seq r1 r2) s ↔ lang (re_seq r1 r2) s.
Proof.
  split.
  - destruct r1, r2; simpl; intros H; try done; try (by apply lang_none in H);
      by apply (lang_seq re_eps _ "" s); [constructor|].
  - intros H. inversion H as [| |a b s1 s2 H1 H2| | | | |]; subst.
    destruct r1, r2; simpl; try done;
      try (by apply lang_none in H1); try (by apply lang_none in H2);
      by inversion H1; subst.
Qed.

Lemma lang_mk_alt r1 r2 s : lang (mk_alt r1 r2) s ↔ lang (re_alt r1 r2) s.
Proof.
  split.
  - destruct r1, r2; simpl; intros H; try done;
      (by apply lang_alt_l) || (by apply lang_alt_r).
  - intros H. inversion H as [| | |a b t H1|a b t H2| | |]; subst;
      destruct r1, r2; simpl; try done;
      try (by apply lang_none in H1); try (by apply lang_none in H2).
Qed.

Lemma lang_mk_and r1 r2 s : lang (mk_and r1 r2) s ↔ lang (re_and r1 r2) s.
Proof.
  split.
  - destruct r1, r2; simpl; intros H; try done; by apply lang_none in H.
  - intros H. inversion H as [| | | | | | |a b t H1 H2]; subst.
    destruct r1, r2; simpl; try done;
      try (by apply lang_none in H1); try (by apply lang_none in H2).
Qed.

Lemma lang_star_cons r c s :
  lang (re_star r) (String c s) →
  ∃ s1 s2, s = s1 ++ s2 ∧ lang r (String c s1) ∧ lang (re_star r) s2.
Proof.
  remember (re_star r) as r' eqn:Hr. remember (String c s) as t eqn:Ht.
  intros H. revert c s Hr Ht.
  induction H as [| | | | | |r0 s1 s2 H1 _ H2 IH|]; intros a t Hr Ht; try done.
  injection Hr as ->. destruct s1 as [|c1 s1].
  - simpl in Ht. by apply IH.
  - simpl in Ht. injection Ht as -> <-. by exists s1, s2.
Qed.

Lemma deriv_lang c r : ∀ s, lang (deriv c r) s ↔ lang r (String c s).
Proof.
  induction r as [| |p|r1 IH1 r2 IH2|r1 IH1 r2 IH2|r IH|r1 IH1 r2 IH2];
    intros s; simpl.
  - split; inversion 1.
  - split; inversion 1.
  - destruct (p c) eqn:Hp; split; intros H.
    + inversion H; subst. by constructor.
    + inversion H; subst. constructor.
    + by apply lang_none in H.
    + inversion H; subst. congruence.
  - rewrite lang_mk_alt. split; intros H.
    + inversion H as [| | |a b t Hl|a b t Hr| | |]; subst.
      * apply lang_mk_seq in Hl.
        inversion Hl as [| |a b s1 s2 H1 H2| | | | |]; subst.
        apply IH1 in H1. by apply (lang_seq _ _ (String c s1) s2).
      * destruct (nullable r1) eqn:Hn; [|by apply lang_none in Hr].
        apply IH2 in Hr. apply nullable_lang in Hn.
        by apply (lang_seq _ _ "" (String c s)).
    + inversion H as [| |a b s1 s2 H1 H2 Hr Hs| | | | |]; subst.
      destruct s1 as [|c1 s1].
      * change (s2 = String c s) in Hs. subst s2. apply lang_alt_r. apply nullable_lang in H1. rewrite H1.
        by apply IH2.
      * change (String c1 (s1 ++ s2) = String c s) in Hs.
        injection Hs as -> <-. apply lang_alt_l, lang_mk_seq.
        constructor; [by apply IH1|done].
  - rewrite lang_mk_alt. split; intros H.
    + inversion H; subst; [apply lang_alt_l, IH1|apply lang_alt_r, IH2]; done.
    + inversion H; subst; [apply lang_alt_l, IH1|apply lang_alt_r, IH2]; done.
  - rewrite lang_mk_seq. split; intros H.
    + inversion H as [| |a b s1 s2 H1 H2| | | | |]; subst.
      apply IH in H1. by apply (lang_star_app _ (String c s1) s2).
    + apply lang_star_cons in H as (s1 & s2 & -> & H1 & H2).
      constructor; [by apply IH|done].
  - rewrite lang_mk_and. split; intros H; inversion H; subst;
      constructor; (by apply IH1) || (by apply IH2).
Qed.

(** The matcher decides the language of the pattern. *)
Lemma matches_whole_lang r s : matches_whole r s = true ↔ lang r s.
Proof.
  revert r. induction s as [|c s IH]; intros r; simpl.
  - apply nullable_lang.
  - rewrite IH. apply deriv_lang.
Qed.

Lemma lang_star_class p s :
  lang (re_star (re_class p)) s ↔ all_chars p s = true.
Proof.
  split.
  - remember (re_star (re_class p)) as r eqn:Hr. intros H.
    induction H as [| | | | | |r0 s1 s2 H1 _ _ IH|]; try done.
    injection Hr as ->. inversion H1 as [|q c Hc| | | | | |]; subst.
    change (all_chars p (String c s2) = true). simpl. by rewrite Hc, IH.
  - induction s as [|c s IH]; simpl; intros H; [constructor|].
    apply andb_true_iff in H as [Hc Hs].
    apply (lang_star_app _ (String c "") s); [by constructor|by apply IH].
Qed.

Lemma lang_anything s : lang Pattern.anything s.
Proof. apply lang_star_class. by induction s. Qed.

Lemma lang_plus_class p s :
  lang (Pattern.plus (re_class p)) s ↔ s ≠ "" ∧ all_chars p s = true.
Proof.
  unfold Pattern.plus. split.
  - intros H. inversion H as [| |a b s1 s2 H1 H2| | | | |]; subst.
    inversion H1 as [|q c Hc| | | | | |]; subst.
    apply lang_star_class in H2. split; [done|].
    change (all_chars p (String c s2) = true). simpl. by rewrite Hc, H2.
  - intros [Hne Hall]. destruct s as [|c s]; [done|]. simpl in Hall.
    apply andb_true_iff in Hall as [Hc Hs].
    apply (lang_seq _ _ (String c "") s); [by constructor|].
    by apply lang_star_class.
Qed.

Lemma all_chars_app p s1 s2 :
  all_chars p (s1 ++ s2) = all_chars p s1 && all_chars p s2.
Proof.
  induction s1 as [|c s1 IH]; [done|].
  change (all_chars p (String c (s1 ++ s2))
          = all_chars p (String c s1) && all_chars p s2).
  simpl. by rewrite IH, andb_assoc.
Qed.

Lemma any_char_split q s :
  any_char q s = true ↔ ∃ s1 c s2, s = s1 ++ String c s2 ∧ q c = true.
Proof.
  split.
  - induction s as [|c s IH]; simpl; [done|].
    intros [Hc|Hs]%orb_true_iff.
    + by exists "", c, s.
    + destruct (IH Hs) as (s1 & c' & s2 & -> & Hc').
      by exists (String c s1), c', s2.
  - intros (s1 & c & s2 & -> & Hc).
    induction s1 as [|c1 s1 IH].
    + change (any_char q (String c s2) = true). simpl. by rewrite Hc.
    + change (any_char q (String c1 (s1 ++ String c s2)) = true). simpl.
      rewrite IH. apply orb_true_r.
Qed.

(** The patterns with a lookahead for a character of a class: a line,
    not empty, that contains a character of the class. *)
Lemma lang_ahead_class p q s :
  lang (Pattern.ahead (re_seq (re_star (re_class p)) (re_class q))
                      (Pattern.plus (re_class p))) s
  ↔ s ≠ "" ∧ all_chars p s = true ∧ any_char q s = true.
Proof.
  unfold Pattern.ahead. split.
  - intros H. inversion H as [| | | | | | |a b t Hlook Hrest]; subst.
    apply lang_plus_class in Hrest as [Hne Hall]. repeat split; [done..|].
    inversion Hlook as [| |a b s1 s2 H1 _| | | | |]; subst.
    inversion H1 as [| |a b t1 t2 _ Hq| | | | |]; subst.
    inversion Hq as [|q' c Hc| | | | | |]; subst.
    apply any_char_split. exists t1, c, s2. split; [|done].
    clear. induction t1 as [|c1 t1 IH]; [done|].
    change (String c1 ((t1 ++ String c "") ++ s2)
            = String c1 (t1 ++ String c s2)). by rewrite IH.
  - intros (Hne & Hall & Hany). constructor; [|by apply lang_plus_class].
    apply any_char_split in Hany as (s1 & c & s2 & -> & Hc).
    rewrite all_chars_app in Hall. apply andb_true_iff in Hall as [Hs1 _].
    assert (s1 ++ String c s2 = (s1 ++ String c "") ++ s2) as ->.
    { clear. induction s1 as [|c1 s1 IH]; [done|].
      change (String c1 (s1 ++ String c s2)
              = String c1 ((s1 ++ String c "") ++ s2)). by rewrite IH. }
    constructor; [|apply lang_anything].
    constructor; [by apply lang_star_class|by constructor].
Qed.

Lemma test_ahead_class p q s :
  matches_whole (Pattern.ahead (re_seq (re_star (re_class p)) (re_class q))
                               (Pattern.plus (re_class p))) s
  = negb (String.eqb s "") && all_chars p s && any_char q s.
Proof.
  apply eq_true_iff_eq. rewrite matches_whole_lang, lang_ahead_class.
  rewrite !andb_true_iff, negb_true_iff, String.eqb_neq. tauto.
Qed.

(** X9. The four character-class rules on a non-empty string: each accepts
    the string exactly when it has no line terminator and contains a
    character of the class of the rule (a digit, a lower-case letter, an
    upper-case letter, an underscore or non-word character); so a string
    with a line break is rejected by every one of them. *)
Theorem character_class_rules (s : string) data w :
  s ≠ "" →
  containsNumber (VStr s) data w
  = Return (if single_line s && any_char Pattern.is_digit s then VUndefined
            else VStr "Must Contain at least one number") w
  ∧ containsLowercase (VStr s) data w
    = Return (if single_line s && any_char Pattern.is_lower s then VUndefined
              else VStr "Must contain at least one lowercase letter.") w
  ∧ containsUppercase (VStr s) data w
    = Return (if single_line s && any_char Pattern.is_upper s then VUndefined
              else VStr "Must contain at least one uppercase letter") w
  ∧ containsSpecialChar (VStr s) data w
    = Return (if single_line s && any_char is_special s then VUndefined
              else VStr "Must contain 1 special character.") w.
Proof.
  intros Hs.
  assert (truthy (VStr s) = true) as Htruthy.
  { simpl. apply negb_true_iff, String.eqb_neq. done. }
  assert (negb (String.eqb s "") = true) as Hne.
  { by apply negb_true_iff, String.eqb_neq. }
  unfold containsNumber, containsLowercase, containsUppercase,
    containsSpecialChar, and_then, validateWithRE, RegExp_test, ret.
  rewrite Htruthy. simpl ToString. unfold single_line.
  repeat split; f_equal.
  - change (matches_whole numberRE s)
      with (matches_whole
              (Pattern.ahead
                 (re_seq (re_star (re_class (λ c, negb (Pattern.is_line_end c))))
                         (re_class Pattern.is_digit))
                 (Pattern.plus (re_class (λ c, negb (Pattern.is_line_end c))))) s).
    rewrite test_ahead_class, Hne. simpl. by destruct (_ && _).
  - change (matches_whole lowercaseRE s)
      with (matches_whole
              (Pattern.ahead
                 (re_seq (re_star (re_class (λ c, negb (Pattern.is_line_end c))))
                         (re_class Pattern.is_lower))
                 (Pattern.plus (re_class (λ c, negb (Pattern.is_line_end c))))) s).
    rewrite test_ahead_class, Hne. simpl. by destruct (_ && _).
  - change (matches_whole uppercaseRE s)
      with (matches_whole
              (Pattern.ahead
                 (re_seq (re_star (re_class (λ c, negb (Pattern.is_line_end c))))
                         (re_class Pattern.is_upper))
                 (Pattern.plus (re_class (λ c, negb (Pattern.is_line_end c))))) s).
    rewrite test_ahead_class, Hne. simpl. by destruct (_ && _).
  - change (matches_whole specialCharRE s)
      with (matches_whole
              (Pattern.ahead
                 (re_seq (re_star (re_class (λ c, negb (Pattern.is_line_end c))))
                         (re_class is_special))
                 (Pattern.plus (re_class (λ c, negb (Pattern.is_line_end c))))) s).
    rewrite test_ahead_class, Hne. simpl. by destruct (_ && _).
Qed.

(** * Properties of the profile reducer *)

Module ProfileFacts.
Import Profile.

#[local] Set Warnings "-clear-no-such-hyp".

(** ** [update] *)

Lemma update_cons (state : record) k v spec :
  update state ((k, v) :: spec) = update (<[k := v]> state) spec.
Proof. reflexivity. Qed.

Lemma lookup_update_notin (state : record) spec k :
  k ∉ spec.*1 → update state spec !! k = state !! k.
Proof.
  revert state. induction spec as [|[k0 v] spec IH]; intros state Hk; [done|].
  apply not_elem_of_cons in Hk as [Hne Hk].
  rewrite update_cons, (IH _ Hk). by apply lookup_insert_ne.
Qed.

Lemma lookup_update_in (state state' : record) spec k :
  k ∈ spec.*1 → update state spec !! k = update state' spec !! k.
Proof.
  revert state state'.
  induction spec as [|[k0 v] spec IH]; intros state state' Hk.
  - by apply elem_of_nil in Hk.
  - rewrite !update_cons.
    destruct (decide (k ∈ spec.*1)) as [Hin|Hout]; [by apply IH|].
    apply elem_of_cons in Hk as [->|?]; [|done].
    by rewrite !lookup_update_notin, !lookup_insert_eq.
Qed.

(** An update whose properties are all rewritten by a later one leaves
    no trace. *)
Lemma update_absorb (state : record) spec1 spec2 :
  (∀ k, k ∈ spec1.*1 → k ∈ spec2.*1) →
  update (update state spec1) spec2 = update state spec2.
Proof.
  intros Hsub. apply map_eq. intros k.
  destruct (decide (k ∈ spec2.*1)) as [Hin|Hout].
  - by apply lookup_update_in.
  - rewrite !lookup_update_notin; try done.
    intros Hk. by apply Hout, Hsub.
Qed.

Lemma dom_update (state : record) spec :
  dom (update state spec) = list_to_set spec.*1 ∪ dom state.
Proof.
  revert state. induction spec as [|[k v] spec IH]; intros state.
  - unfold update. simpl. by rewrite (left_id_L ∅ (∪)).
  - rewrite update_cons, IH, dom_insert_L. simpl.
    by rewrite (assoc_L (∪)), (comm_L (∪) _ {[k]}).
Qed.

(** ** Dispatch *)




(** ** What the cases write *)

Lemma run_case_writes c (state : record) action :
  run_case c state action
  = match writes c action with
    | Some spec => inr (update state spec)
    | None => inl TypeError
    end.
Proof. destruct c; try reflexivity. simpl. by destruct (inputs action). Qed.

(** The properties a case writes. *)
Lemma run_case_update c (state : record) action state' :
  run_case c state action = inr state' →
  ∃ spec, state' = update state spec
          ∧ (∀ k, k ∈ spec.*1 → k ∈ managed)
          ∧ (∀ state0, run_case c state0 action = inr (update state0 spec))
          ∧ (c ≠ SubmissionFailure → c ≠ ClearError → "error" ∉ spec.*1)
          ∧ (c ≠ SubmissionInitiation → c ≠ SubmissionSuccess →
             c ≠ SubmissionFailure → "isLoading" ∉ spec.*1)
          ∧ (is_editing_case c = true →
             ∀ k, k ∈ spec.*1 → k ∈ "isEditing" :: input_keys).
Proof.
  rewrite run_case_writes.
  destruct (writes c action) as [spec|] eqn:Hspec; [|done].
  intros Hrun. exists spec. split; [congruence|].
  split; [|split; [intros state0; by rewrite run_case_writes, Hspec|]];
    clear Hrun; unfold managed, input_keys;
    destruct c; simpl in Hspec; try destruct (inputs action);
    try discriminate Hspec; injection Hspec as <-; simpl;
    repeat split; try done; intros; set_solver.
Qed.

(** X11. The reducer is idempotent: dispatching the same action again
    to the state it produced changes nothing. *)
Theorem reducer_idempotent (types : ActionTypes) (state : option record)
    action state' :
  profileReducer types state action = inr state' →
  profileReducer types (Some state') action = inr state'.
Proof.
  unfold profileReducer. simpl. intros Hrun.
  destruct (run_case_update _ _ _ _ Hrun) as (spec & -> & _ & Hany & _).
  rewrite Hany. f_equal. by apply update_absorb.
Qed.

(** X12. What an action can change.  No action touches a property other
    than the seven the reducer manages; [error] is changed only by the
    cases of a failed submission and of clearing the error; [isLoading]
    only by the three submission cases.  So cancelling an edit leaves a
    pending [isLoading] as it is, and a successful submission leaves a
    former [error] in place. *)
Theorem reducer_frame (types : ActionTypes) (state : record) action state' :
  profileReducer types (Some state) action = inr state' →
  (∀ k, k ∉ managed → state' !! k = state !! k)
  ∧ (select types (type action) ≠ SubmissionFailure →
     select types (type action) ≠ ClearError →
     state' !! "error" = state !! "error")
  ∧ (select types (type action) ≠ SubmissionInitiation →
     select types (type action) ≠ SubmissionSuccess →
     select types (type action) ≠ SubmissionFailure →
     state' !! "isLoading" = state !! "isLoading").
Proof.
  unfold profileReducer. simpl. intros Hrun.
  destruct (run_case_update _ _ _ _ Hrun)
    as (spec & -> & Hmanaged & _ & Herror & Hloading & _).
  repeat split.
  - intros k Hk. apply lookup_update_notin. intros Hin. by apply Hk, Hmanaged.
  - intros ??. apply lookup_update_notin. by apply Herror.
  - intros ???. apply lookup_update_notin. by apply Hloading.
Qed.

(** X13. Leaving the edit mode.  The cases of a cancelled edit, of a
    successful and of a failed submission all return a state in which
    [isEditing] is [false] and the four inputs are [null], whatever the
    state before; the two submission cases also set [isLoading] to
    [false], and the failure records the error of the action. *)
Theorem reducer_leaves_edit_mode (types : ActionTypes) (state : record) action :
  select types (type action) ∈ [CancelEditing; SubmissionSuccess; SubmissionFailure] →
  ∃ state',
    profileReducer types (Some state) action = inr state'
    ∧ state' !! "isEditing" = Some (VBool false)
    ∧ (∀ k, k ∈ input_keys → state' !! k = Some VNull)
    ∧ (select types (type action) ≠ CancelEditing →
       state' !! "isLoading" = Some (VBool false))
    ∧ (select types (type action) = SubmissionFailure →
       state' !! "error" = Some (error action)).
Proof.
  unfold profileReducer, input_keys. simpl. intros Hsel.
  destruct (select types (type action)); try (exfalso; set_solver);
    eexists; (split; [reflexivity|]); unfold update; simpl;
    repeat split; try done;
    try (intros k Hk; repeat (apply elem_of_cons in Hk as [->|Hk]);
         [by simplify_map_eq..|by apply elem_of_nil in Hk]);
    try (intros _; by simplify_map_eq); by simplify_map_eq.
Qed.

(** X14. The default inputs.  In the case of setting the default inputs,
    the reducer raises a [TypeError] when the action has no [inputs];
    otherwise it copies the four properties [bio], [avatar], [employer]
    and [email] of [inputs] into the four inputs of the state, a property
    that [inputs] lacks giving the input [undefined], and it changes
    nothing else. *)
Theorem reducer_default_inputs (types : ActionTypes) (state : record) action :
  select types (type action) = SetDefaultInputs →
  match inputs action with
  | None => profileReducer types (Some state) action = inl TypeError
  | Some props =>
      ∃ state',
        profileReducer types (Some state) action = inr state'
        ∧ state' !! "bioInput" = Some (get props "bio")
        ∧ state' !! "avatarInput" = Some (get props "avatar")
        ∧ state' !! "employerInput" = Some (get props "employer")
        ∧ state' !! "emailInput" = Some (get props "email")
        ∧ (∀ k, props !! k = None → k ∈ ["bio"; "avatar"; "employer"; "email"] →
                get props k = VUndefined)
        ∧ (∀ k, k ∉ input_keys → state' !! k = state !! k)
  end.
Proof.
  unfold profileReducer. simpl. intros ->. simpl.
  destruct (inputs action) as [props|]; [|done].
  eexists. split; [reflexivity|]. unfold update; simpl.
  repeat split; try (by simplify_map_eq).
  - intros k Hk Hin. unfold get. rewrite Hk.
    repeat (apply elem_of_cons in Hin as [->|Hin]); try done.
    by apply elem_of_nil in Hin.
  - intros k Hk. unfold input_keys in Hk.
    rewrite !not_elem_of_cons in Hk. destruct Hk as (?&?&?&?&_).
    by simplify_map_eq.
Qed.

(** X15. Well-formed states.  The initial state has the seven managed
    properties and no other, with boolean flags [isEditing] and
    [isLoading]; and every action the reducer accepts keeps a state so. *)
Theorem reducer_well_formed (types : ActionTypes) :
  well_formed initialState
  ∧ ∀ state action state',
      well_formed state →
      profileReducer types (Some state) action = inr state' →
      well_formed state'.
Proof.
  split.
  - unfold well_formed. split; [|split; by eexists].
    unfold initialState. rewrite dom_list_to_map_L. done.
  - unfold profileReducer. simpl.
    intros state action state' (Hdom & [e He] & [l Hl]) Hrun.
    pose proof (run_case_update _ _ _ _ Hrun) as (spec & Hspec & Hmanaged & _).
    split; [|split].
    + rewrite Hspec, dom_update, Hdom. apply set_eq. intros k.
      rewrite elem_of_union, !elem_of_list_to_set. split; [|by right].
      intros [Hk|Hk]; [by apply Hmanaged|done].
    + clear Hspec Hmanaged.
      destruct (select types (type action)); simpl in Hrun;
        try destruct (inputs action); try discriminate Hrun;
        injection Hrun as <-; unfold update; simpl;
        simplify_map_eq; by eexists.
    + clear Hspec Hmanaged.
      destruct (select types (type action)); simpl in Hrun;
        try destruct (inputs action); try discriminate Hrun;
        injection Hrun as <-; unfold update; simpl;
        simplify_map_eq; by eexists.
Qed.

(** X16. Cancelling discards the edit.  After any action of an editing
    case (an edit of one of the four inputs, the start of an edit, the
    default inputs, a cancellation), cancelling gives the state that
    cancelling at once would have given. *)
Theorem reducer_cancel_discards (types : ActionTypes) (state : record)
    edit cancel state1 :
  is_editing_case (select types (type edit)) = true →
  select types (type cancel) = CancelEditing →
  profileReducer types (Some state) edit = inr state1 →
  profileReducer types (Some state1) cancel
  = profileReducer types (Some state) cancel.
Proof.
  unfold profileReducer. simpl. intros Hedit -> Hrun.
  destruct (run_case_update _ _ _ _ Hrun) as (spec & -> & _ & _ & _ & _ & Hkeys).
  rewrite !run_case_writes. cbn [writes]. f_equal.
  apply update_absorb. intros k Hk.
  specialize (Hkeys Hedit k Hk). unfold input_keys in Hkeys. simpl.
  set_solver.
Qed.

End ProfileFacts.

(** * The further properties at sample inputs *)

(** A name of two letters: the length rule of the first list wins over
    the e-mail rule of the second. *)
Lemma join_concat_short_name :
  join [valueRequired; minLength 3] (VStr "ab") ∅ sample_world
  = Return (VStr "Value must contain at least 3 characters") sample_world
  ∧ join [isEmail] (VStr "ab") ∅ sample_world
    = Return (VStr "Must be a valid email address.") sample_world
  ∧ join ([valueRequired; minLength 3] ++ [isEmail]) (VStr "ab") ∅ sample_world
    = Return (VStr "Value must contain at least 3 characters") sample_world.
Proof.
  assert (join [valueRequired; minLength 3] (VStr "ab") ∅ sample_world
          = Return (VStr "Value must contain at least 3 characters")
              sample_world) as H1 by reflexivity.
  assert (join [isEmail] (VStr "ab") ∅ sample_world
          = Return (VStr "Must be a valid email address.") sample_world)
    as H2 by reflexivity.
  split; [exact H1|]. split; [exact H2|].
  exact (join_concat _ _ _ _ _ _ _ _ _ H1 H2).
Defined.

(** The number 5 has no capital letter, and no [toLowerCase]: the error
    of the first rule is lost to the exception of the second. *)
Lemma join_raises_on_number :
  runs_all (VNum 5) ∅ [containsUppercase] sample_world
    [VStr "Must contain at least one uppercase letter"] sample_world
  ∧ containsTwoWords (VNum 5) ∅ sample_world = Throw TypeError
  ∧ join ([containsUppercase] ++ containsTwoWords :: [isEmail]) (VNum 5) ∅
      sample_world
    = Throw TypeError.
Proof.
  assert (runs_all (VNum 5) ∅ [containsUppercase] sample_world
            [VStr "Must contain at least one uppercase letter"] sample_world)
    as Hruns.
  { econstructor; [reflexivity|constructor]. }
  assert (containsTwoWords (VNum 5) ∅ sample_world = Throw TypeError)
    as Hraise by reflexivity.
  split; [exact Hruns|]. split; [exact Hraise|].
  exact (join_raises _ [isEmail] _ _ _ _ _ _ _ Hruns Hraise).
Defined.

(** The event draft: every field of the form is accounted for. *)
Lemma error_map_complete_event_draft :
  createValidator (schema_of IsoDate.parse event_form) event_draft sample_world
  = Return event_draft_errors (tick sample_world)
  ∧ ∀ f, f ≠ "__proto__" →
      (f ∈ Object_keys (schema_of IsoDate.parse event_form) →
       ∃ w1 w2 e,
         join (rules_at (schema_of IsoDate.parse event_form) f)
           (get event_draft f) event_draft w1 = Return e w2
         ∧ event_draft_errors !! f = if truthy e then Some e else None)
      ∧ (f ∉ Object_keys (schema_of IsoDate.parse event_form) →
         event_draft_errors !! f = None).
Proof.
  assert (createValidator (schema_of IsoDate.parse event_form) event_draft
            sample_world = Return event_draft_errors (tick sample_world)) as Hrun.
  { reflexivity. }
  split; [exact Hrun|].
  exact (error_map_complete _ _ _ _ _ Hrun).
Defined.

(** The required field [__proto__] is empty, and its error is dropped. *)
Lemma error_map_drops_proto_sample :
  valueRequired (get proto_record "__proto__") proto_record sample_world
  = Return (VStr "Value Required") sample_world
  ∧ createValidator proto_form proto_record sample_world
    = Return {[ "name" := VStr "Value Required" ]} sample_world
  ∧ ({[ "name" := VStr "Value Required" ]} : ErrorMap) !! "__proto__" = None.
Proof.
  assert (createValidator proto_form proto_record sample_world
          = Return {[ "name" := VStr "Value Required" ]} sample_world) as Hrun.
  { reflexivity. }
  split; [reflexivity|]. split; [exact Hrun|].
  exact (error_map_drops_proto _ _ _ _ _ Hrun).
Defined.

(** The event form with bare rules and with arrays. *)
Lemma createValidator_normalises_event_form :
  createValidator (schema_of IsoDate.parse event_form) event_draft sample_world
  = createValidator (schema_of IsoDate.parse event_form_arrays) event_draft
      sample_world.
Proof.
  apply createValidator_normalises. repeat constructor.
Defined.

(** An event that ends an hour before it starts, and the same dates
    swapped. *)
Lemma noLaterThan_asymmetric_event_draft :
  noLaterThan IsoDate.parse "startDate" (VStr "2030-05-01T17:00Z") event_draft
    sample_world
  = Return (VStr "The end date must come after the start date") sample_world
  ∧ noLaterThan IsoDate.parse "startDate" (VStr "2030-05-01T18:00Z")
      {[ "startDate" := VStr "2030-05-01T17:00Z" ]} sample_world
    = Return VNull sample_world.
Proof.
  assert (noLaterThan IsoDate.parse "startDate" (VStr "2030-05-01T17:00Z")
            event_draft sample_world
          = Return (VStr "The end date must come after the start date")
              sample_world) as Hlate by reflexivity.
  split; [exact Hlate|].
  exact (proj2 (noLaterThan_asymmetric IsoDate.parse "startDate"
                  (VStr "2030-05-01T18:00Z") (VStr "2030-05-01T17:00Z")
                  event_draft {[ "startDate" := VStr "2030-05-01T17:00Z" ]}
                  sample_world eq_refl eq_refl) Hlate).
Defined.

(** Two lines with a digit, letters of both cases and a space: every
    character-class rule rejects them. *)
Lemma character_class_rules_two_lines :
  two_lines ≠ ""
  ∧ any_char Pattern.is_digit two_lines = true
  ∧ containsNumber (VStr two_lines) ∅ sample_world
    = Return (VStr "Must Contain at least one number") sample_world
  ∧ containsLowercase (VStr two_lines) ∅ sample_world
    = Return (VStr "Must contain at least one lowercase letter.") sample_world
  ∧ containsUppercase (VStr two_lines) ∅ sample_world
    = Return (VStr "Must contain at least one uppercase letter") sample_world
  ∧ containsSpecialChar (VStr two_lines) ∅ sample_world
    = Return (VStr "Must contain 1 special character.") sample_world.
Proof.
  assert (two_lines ≠ "") as Hne by done.
  split; [exact Hne|]. split; [reflexivity|].
  exact (character_class_rules two_lines ∅ sample_world Hne).
Defined.

Module ProfileSamples.
Import Profile.


(** Typing the same bio twice. *)
Lemma reducer_idempotent_edit_bio :
  profileReducer sample_types None (edit_bio "Hello")
  = inr (<[ "bioInput" := VStr "Hello" ]> initialState)
  ∧ profileReducer sample_types
      (Some (<[ "bioInput" := VStr "Hello" ]> initialState)) (edit_bio "Hello")
    = inr (<[ "bioInput" := VStr "Hello" ]> initialState).
Proof.
  assert (profileReducer sample_types None (edit_bio "Hello")
          = inr (<[ "bioInput" := VStr "Hello" ]> initialState)) as Hrun.
  { reflexivity. }
  split; [exact Hrun|].
  exact (ProfileFacts.reducer_idempotent _ _ _ _ Hrun).
Defined.

(** Cancelling while a submission is under way: [isLoading] stays. *)
Lemma reducer_frame_cancel :
  profileReducer sample_types (Some editing_state)
    (plain_action "PROFILE_CANCEL_EDITING")
  = inr (<[ "isLoading" := VBool true ]> initialState)
  ∧ (<[ "isLoading" := VBool true ]> initialState : record) !! "isLoading"
    = editing_state !! "isLoading".
Proof.
  assert (profileReducer sample_types (Some editing_state)
            (plain_action "PROFILE_CANCEL_EDITING")
          = inr (<[ "isLoading" := VBool true ]> initialState)) as Hrun.
  { reflexivity. }
  split; [exact Hrun|].
  apply (ProfileFacts.reducer_frame _ _ _ _ Hrun); by compute.
Defined.

(** A failed submission in the middle of an edit. *)
Lemma reducer_leaves_edit_mode_failure :
  ∃ state',
    profileReducer sample_types (Some editing_state)
      (submission_failure "Network error") = inr state'
    ∧ state' !! "isEditing" = Some (VBool false)
    ∧ (∀ k, k ∈ input_keys → state' !! k = Some VNull)
    ∧ (select sample_types (type (submission_failure "Network error"))
       ≠ CancelEditing →
       state' !! "isLoading" = Some (VBool false))
    ∧ (select sample_types (type (submission_failure "Network error"))
       = SubmissionFailure →
       state' !! "error" = Some (error (submission_failure "Network error"))).
Proof.
  apply ProfileFacts.reducer_leaves_edit_mode.
  change (SubmissionFailure ∈ [CancelEditing; SubmissionSuccess; SubmissionFailure]).
  apply list_elem_of_In. simpl. auto.
Defined.

(** The default inputs without [inputs], and with a bio only. *)
Lemma reducer_default_inputs_missing :
  profileReducer sample_types (Some initialState) (set_default_inputs None)
  = inl TypeError.
Proof.
  exact (ProfileFacts.reducer_default_inputs sample_types initialState
           (set_default_inputs None) eq_refl).
Defined.

(** Editing the bio, then cancelling. *)
Lemma reducer_cancel_discards_edit_bio :
  profileReducer sample_types
    (Some (<[ "bioInput" := VStr "Hello" ]> initialState))
    (plain_action "PROFILE_CANCEL_EDITING")
  = profileReducer sample_types (Some initialState)
      (plain_action "PROFILE_CANCEL_EDITING").
Proof.
  apply (ProfileFacts.reducer_cancel_discards sample_types initialState
           (edit_bio "Hello") (plain_action "PROFILE_CANCEL_EDITING"));
    reflexivity.
Defined.

End ProfileSamples.
